(** * beets-notify: batch notification on import completion

    A shallow embedding of [beetsplug/notify.py] and the properties of its
    batching, message composition, artwork sizing and dispatch.

    Python values are modelled as follows.
    - [str] is a list of Unicode code points, so that [len] is [length];
      [bytes] is a list of [Byte.byte].
    - [int] is [Z]; list slicing [xs[:k]] keeps Python's meaning for a
      negative [k].
    - The plugin instance is a configuration [Config] (read-only) and a
      [State] holding the collected albums and the trace of effects
      (log records, temporary files, resizer and sink calls).
    - Exceptions are the [Raise] results of a state-and-error monad [M];
      [try ... except Exception] is [try_catch].
    - The operating system, the image resizer and the Apprise object are
      external: their answers are the fields of an [Env]. *)

From Stdlib Require Import String Ascii.
From Stdlib Require Import ZArith NArith List Bool Lia.
From Stdlib.Strings Require Import Byte.
From Stdlib Require Import DecimalString.
Import ListNotations.

Set Implicit Arguments.
Local Open Scope Z_scope.

(** ** Strings, bytes and slices *)

Definition char := N.
Definition str := list char.

(** An ASCII literal as a [str]. *)
Definition lit (s : string) : str := map N_of_ascii (list_ascii_of_string s).

(** The line feed in ["\n"]. *)
Definition nl : str := [10%N].

(** [str(n)] / the [{}] of an f-string for an [int]. *)
Definition str_of_int (z : Z) : str := lit (NilZero.string_of_int (Z.to_int z)).

(** [len(x)] as a Python [int]. *)
Definition len {A : Type} (xs : list A) : Z := Z.of_nat (length xs).

(** [xs[:k]]: a negative [k] counts from the end, and both ends clip. *)
Definition slice_to {A : Type} (xs : list A) (k : Z) : list A :=
  if k <? 0 then firstn (Z.to_nat (len xs + k)) xs
  else firstn (Z.to_nat k) xs.

(** [sep.join(parts)]. *)
Fixpoint join (sep : str) (parts : list str) : str :=
  match parts with
  | [] => []
  | p :: rest =>
      match rest with
      | [] => p
      | _ :: _ => p ++ sep ++ join sep rest
      end
  end.

(** [body] ends with the text [suffix]. *)
Definition ends_with (suffix body : str) : Prop :=
  exists front, body = front ++ suffix.

(** *** Strict UTF-8 decoding, [bytes.decode("utf-8")] *)

Definition in_range (lo hi b : N) : bool := ((lo <=? b) && (b <=? hi))%N.
Definition is_cont (b : N) : bool := in_range 0x80 0xBF b.
Definition low6 (b : N) : N := N.land b 0x3F.

Fixpoint utf8_decode (bs : list N) : option str :=
  match bs with
  | [] => Some []
  | b0 :: r0 =>
      if (b0 <? 0x80)%N then option_map (cons b0) (utf8_decode r0)
      else if in_range 0xC2 0xDF b0 then
        match r0 with
        | b1 :: r1 =>
            if is_cont b1
            then option_map
                   (cons (N.shiftl (N.land b0 0x1F) 6 + low6 b1)%N)
                   (utf8_decode r1)
            else None
        | _ => None
        end
      else if in_range 0xE0 0xEF b0 then
        match r0 with
        | b1 :: b2 :: r2 =>
            if in_range (if (b0 =? 0xE0)%N then 0xA0 else 0x80)
                        (if (b0 =? 0xED)%N then 0x9F else 0xBF) b1
               && is_cont b2
            then option_map
                   (cons (N.shiftl (N.land b0 0x0F) 12
                          + N.shiftl (low6 b1) 6 + low6 b2)%N)
                   (utf8_decode r2)
            else None
        | _ => None
        end
      else if in_range 0xF0 0xF4 b0 then
        match r0 with
        | b1 :: b2 :: b3 :: r3 =>
            if in_range (if (b0 =? 0xF0)%N then 0x90 else 0x80)
                        (if (b0 =? 0xF4)%N then 0x8F else 0xBF) b1
               && is_cont b2 && is_cont b3
            then option_map
                   (cons (N.shiftl (N.land b0 0x07) 18
                          + N.shiftl (low6 b1) 12
                          + N.shiftl (low6 b2) 6 + low6 b3)%N)
                   (utf8_decode r3)
            else None
        | _ => None
        end
      else None
  end.

(** ** Data model *)

(** [album.artpath]: [None], a [str] or a [bytes] value. *)
Inductive PathVal :=
| PNone
| PStr (s : str)
| PBytes (b : list byte).

Record Album := {
  albumartist : str;
  album : str;
  year : Z;
  artpath : PathVal
}.

(** The plugin's configuration view, with the keys of [self.config.add]. *)
Record Config := {
  apprise_urls : list str;
  truncate : Z;
  body_maxlength : Z;
  artwork : bool;
  artwork_maxsize : Z;
  show_first_art : bool
}.

Inductive exn :=
| UnicodeDecodeError (b : list byte)
| OSError (msg : str)
| TypeError
| Exception (msg : str).

Inductive Level := LDebug | LInfo | LWarning | LError.

Inductive LogArg :=
| ArgInt (n : Z)
| ArgExn (e : exn).

(** What the plugin does to the outside world, in order. *)
Inductive Event :=
| EvLog (lv : Level) (fmt : string) (args : list LogArg)
| EvTempFile (name : str)
| EvResize (maxwidth : Z) (path_in path_out : str) (max_filesize : Z)
| EvNotify (title body : str) (attach : option str).

Inductive Result (A : Type) :=
| Ok (a : A)
| Raise (e : exn).
Arguments Ok {A} a.
Arguments Raise {A} e.

(** The external collaborators, each by the answer it gives.
    - [os_path_getsize path]: the size in bytes, or the [OSError] raised.
    - [os_path_splitext_ext path]: the extension, second component of
      [os.path.splitext].
    - [tempfile_name evs suffix]: the [.name] of the file that
      [tempfile.NamedTemporaryFile(suffix=suffix, delete=False)] creates
      after the events [evs].
    - [ArtResizer_resize maxwidth path_in path_out max_filesize]: what
      [ArtResizer().resize] returns.
    - An Apprise object is known by the URLs offered to it so far:
      [apprise_add offered url] is the result of [add(url)],
      [apprise_len offered] is [len(apobj)], and [apprise_notify offered]
      is the result of [notify]. *)
Record Env := {
  os_path_getsize : str -> Result Z;
  os_path_splitext_ext : str -> str;
  tempfile_name : list Event -> str -> Result str;
  ArtResizer_resize : Z -> str -> str -> Z -> Result str;
  apprise_add : list str -> str -> bool;
  apprise_len : list str -> Z;
  apprise_notify : list str -> str -> str -> option str -> Result bool
}.

(** The class attribute [imported_albums] and the trace of effects. *)
Record State := {
  imported_albums : list Album;
  events : list Event
}.

(** ** The state-and-error monad *)

Definition M (A : Type) : Type := State -> Result A * State.

Definition ret {A : Type} (a : A) : M A := fun st => (Ok a, st).

Definition bind {A B : Type} (m : M A) (k : A -> M B) : M B :=
  fun st =>
    match m st with
    | (Ok a, st1) => k a st1
    | (Raise e, st1) => (Raise e, st1)
    end.

(** [try: m except Exception as e: h e]; effects of [m] before the
    exception stay. *)
Definition try_catch {A : Type} (m : M A) (h : exn -> M A) : M A :=
  fun st =>
    match m st with
    | (Ok a, st1) => (Ok a, st1)
    | (Raise e, st1) => h e st1
    end.

Notation "x <- m ;; k" := (bind m (fun x => k))
  (at level 61, m at next level, right associativity).
Notation "m ;;; k" := (bind m (fun _ => k))
  (at level 61, right associativity).

Definition lift {A : Type} (r : Result A) : M A := fun st => (r, st).

Definition emit (ev : Event) : M unit :=
  fun st =>
    (Ok tt, {| imported_albums := imported_albums st;
               events := events st ++ [ev] |}).

Definition log (lv : Level) (fmt : string) (args : list LogArg) : M unit :=
  emit (EvLog lv fmt args).

(** ** Python truthiness *)

Definition nonempty {A : Type} (xs : list A) : bool :=
  match xs with [] => false | _ :: _ => true end.

Definition path_truthy (p : PathVal) : bool :=
  match p with
  | PNone => false
  | PStr s => nonempty s
  | PBytes b => nonempty b
  end.

Definition opt_truthy (p : option str) : bool :=
  match p with
  | None => false
  | Some s => nonempty s
  end.

(** ** [resize_artwork] *)

Definition NamedTemporaryFile (env : Env) (suffix : str) : M str :=
  fun st =>
    match tempfile_name env (events st) suffix with
    | Ok name => bind (emit (EvTempFile name)) (fun _ => ret name) st
    | Raise e => (Raise e, st)
    end.

Definition resizer_resize (env : Env) (maxwidth : Z) (path_in path_out : str)
    (max_filesize : Z) : M str :=
  emit (EvResize maxwidth path_in path_out max_filesize) ;;;
  lift (ArtResizer_resize env maxwidth path_in path_out max_filesize).

(** Return path to resized artwork, or original if no resize needed. *)
Definition resize_artwork (env : Env) (art_path : str) (max_filesize : Z)
    : M str :=
  current_size <- lift (os_path_getsize env art_path) ;;
  if (max_filesize =? 0) || (current_size <=? max_filesize) then
    ret art_path
  else
    let ext := os_path_splitext_ext env art_path in
    tmp_file <- NamedTemporaryFile env ext ;;
    resized_path <- resizer_resize env 1000 art_path tmp_file max_filesize ;;
    ret resized_path.

(** ** [NotifyPlugin] *)

(** Collect imported albums for batch notification. *)
Definition album_imported (alb : Album) : M unit :=
  fun st =>
    (Ok tt, {| imported_albums := imported_albums st ++ [alb];
               events := events st |}).

Definition bytes_decode_utf8 (b : list byte) : Result str :=
  match utf8_decode (map Byte.to_N b) with
  | Some s => Ok s
  | None => Raise (UnicodeDecodeError b)
  end.

(** The body of the [try] in [build_message].  The guard before it lets
    no [None] path in; [os.path.getsize(None)] would raise [TypeError]. *)
Definition artwork_attempt (env : Env) (cfg : Config) (alb : Album) : M str :=
  art_path <- lift (match artpath alb with
                    | PBytes b => bytes_decode_utf8 b
                    | PStr s => Ok s
                    | PNone => Raise TypeError
                    end) ;;
  let max_size := artwork_maxsize cfg in
  resize_artwork env art_path max_size.

Definition format_line (alb : Album) : str :=
  albumartist alb ++ lit " - " ++ album alb
    ++ lit " (" ++ str_of_int (year alb) ++ lit ")".

(** "Get artwork from first album if enabled": the [if] of the loop body
    at index [i], giving the new value of [artwork_path]. *)
Definition artwork_step (env : Env) (cfg : Config) (i : nat) (alb : Album)
    (artwork_path : option str) : M (option str) :=
  if Nat.eqb i 0 && artwork cfg && show_first_art cfg
     && path_truthy (artpath alb)
  then
    try_catch
      (p <- artwork_attempt env cfg alb ;; ret (Some p))
      (fun e =>
         log LDebug "failed to process artwork: {}" [ArgExn e] ;;;
         ret artwork_path)
  else ret artwork_path.

(** The [for i, album in enumerate(...)] loop of [build_message], from
    index [i] on, with the current [body_lines] and [artwork_path]. *)
Fixpoint build_loop (env : Env) (cfg : Config) (i : nat) (albums : list Album)
    (body_lines : list str) (artwork_path : option str)
    : M (list str * option str) :=
  match albums with
  | [] => ret (body_lines, artwork_path)
  | alb :: rest =>
      let body_lines := body_lines ++ [format_line alb] in
      artwork_path <- artwork_step env cfg i alb artwork_path ;;
      build_loop env cfg (S i) rest body_lines artwork_path
  end.

Definition build_title (albums : list Album) : str :=
  let album_word := if len albums =? 1 then lit "album" else lit "albums" in
  lit "Beets: " ++ str_of_int (len albums) ++ lit " " ++ album_word
    ++ lit " imported".

(** "Add truncation message." *)
Definition add_truncation_message (albums : list Album) (max_albums : Z)
    (body : str) : str :=
  if len albums >? max_albums then
    let remaining := len albums - max_albums in
    body ++ nl ++ lit "...and " ++ str_of_int remaining ++ lit " more"
  else body.

(** "Truncate body if too long." *)
Definition truncate_body (max_length : Z) (body : str) : str :=
  if len body >? max_length then slice_to body (max_length - 3) ++ lit "..."
  else body.

(** Build notification title, body, and optional artwork path. *)
Definition build_message (env : Env) (cfg : Config) (albums : list Album)
    : M (str * str * option str) :=
  let truncate := truncate cfg in
  let max_albums := Z.min (len albums) truncate in
  let title := build_title albums in
  r <- build_loop env cfg 0 (slice_to albums max_albums) [] None ;;
  let body_lines := fst r in
  let artwork_path := snd r in
  let body := join nl body_lines in
  let body := add_truncation_message albums max_albums body in
  let max_length := body_maxlength cfg in
  let body := truncate_body max_length body in
  ret (title, body, artwork_path).

(** The [for url in urls] loop of [send_notification]; [apobj] is the
    Apprise object, as the URLs offered to it so far. *)
Fixpoint add_urls (env : Env) (apobj : list str) (urls : list str)
    : M (list str) :=
  match urls with
  | [] => ret apobj
  | url :: rest =>
      (if apprise_add env apobj url then ret tt
       else log LWarning "failed to add apprise URL" []) ;;;
      add_urls env (apobj ++ [url]) rest
  end.

Definition apobj_notify (env : Env) (apobj : list str) (title body : str)
    (attach : option str) : M bool :=
  emit (EvNotify title body attach) ;;;
  lift (apprise_notify env apobj title body attach).

(** Send notification via Apprise. *)
Definition send_notification (env : Env) (cfg : Config) (albums : list Album)
    : M unit :=
  let urls := apprise_urls cfg in
  if negb (nonempty urls) then
    log LDebug "no apprise URLs configured" []
  else
    m <- build_message env cfg albums ;;
    let '(title, body, artwork_path) := m in
    apobj <- add_urls env [] urls ;;
    if apprise_len env apobj =? 0 then
      log LError "no valid apprise URLs configured" []
    else
      try_catch
        (success <-
           (if opt_truthy artwork_path
            then apobj_notify env apobj title body artwork_path
            else apobj_notify env apobj title body None) ;;
         if (success : bool) then
           log LInfo "notification sent to {} service(s)"
               [ArgInt (apprise_len env apobj)]
         else log LError "notification failed" [])
        (fun e => log LError "notification error: {}" [ArgExn e]).

(** Send notification when CLI exits if albums were imported. *)
Definition notify_on_cli_exit (env : Env) (cfg : Config) : M unit :=
  fun st =>
    if negb (nonempty (imported_albums st)) then (Ok tt, st)
    else
      (log LDebug "sending notification for {} album(s)"
           [ArgInt (len (imported_albums st))] ;;;
       send_notification env cfg (imported_albums st)) st.

(** ** Observations on runs *)

(** The albums the loop of [build_message] goes through. *)
Definition listed (cfg : Config) (albums : list Album) : list Album :=
  slice_to albums (Z.min (len albums) (truncate cfg)).

(** The body before "Truncate body if too long". *)
Definition assembled_body (cfg : Config) (albums : list Album) : str :=
  add_truncation_message albums (Z.min (len albums) (truncate cfg))
    (join nl (map format_line (listed cfg albums))).

Definition final_body (cfg : Config) (albums : list Album) : str :=
  truncate_body (body_maxlength cfg) (assembled_body cfg albums).

(** The line "...and K more", with the line feed before it. *)
Definition more_line (k : Z) : str :=
  nl ++ lit "...and " ++ str_of_int k ++ lit " more".

Definition msg_title (r : Result (str * str * option str)) : option str :=
  match r with Ok (t, _, _) => Some t | Raise _ => None end.

Definition msg_body (r : Result (str * str * option str)) : option str :=
  match r with Ok (_, b, _) => Some b | Raise _ => None end.

Definition msg_artwork (r : Result (str * str * option str)) : option str :=
  match r with Ok (_, _, a) => a | Raise _ => None end.

Definition add_event (ev : Event) (st : State) : State :=
  {| imported_albums := imported_albums st; events := events st ++ [ev] |}.

Definition is_notify (ev : Event) : bool :=
  match ev with EvNotify _ _ _ => true | _ => false end.

Definition is_debug (ev : Event) : bool :=
  match ev with EvLog LDebug _ _ => true | _ => false end.

Definition notify_count (evs : list Event) : nat :=
  length (filter is_notify evs).

Definition debug_count (evs : list Event) : nat :=
  length (filter is_debug evs).

(** [st] with the events [new] after its own. *)
Definition grow (st : State) (new : list Event) : State :=
  {| imported_albums := imported_albums st; events := events st ++ new |}.

(** A computation that leaves the collected albums alone and only appends
    events, at most [n] of them deliveries. *)
Definition delivers_at_most {A : Type} (n : nat) (m : M A) : Prop :=
  forall st, exists new,
    snd (m st) = grow st new /\ (notify_count new <= n)%nat.

(** *** Sample inputs *)

Module Sample.

Definition mk (a t : string) (y : Z) (p : PathVal) : Album :=
  {| albumartist := lit a; album := lit t; year := y; artpath := p |}.

Definition cover : str := lit "/music/A/X/cover.jpg".

Definition one : list Album := [mk "A" "X" 2020 (PStr cover)].

Definition three : list Album :=
  [mk "A" "X" 2020 (PStr cover); mk "B" "Y" 2021 PNone;
   mk "C" "Z" 2022 PNone].

(** Every file has 4096 bytes, the resizer writes to the path it is
    given, the sink takes every URL. *)
Definition env : Env :=
  {| os_path_getsize := fun _ => Ok 4096;
     os_path_splitext_ext := fun _ => lit ".jpg";
     tempfile_name := fun _ sfx => Ok (lit "/tmp/tmpq3" ++ sfx);
     ArtResizer_resize := fun _ _ path_out _ => Ok path_out;
     apprise_add := fun _ _ => true;
     apprise_len := fun offered => len offered;
     apprise_notify := fun _ _ _ _ => Ok true |}.

(** No file can be read. *)
Definition env_missing : Env :=
  {| os_path_getsize := fun path => Raise (OSError path);
     os_path_splitext_ext := os_path_splitext_ext env;
     tempfile_name := tempfile_name env;
     ArtResizer_resize := ArtResizer_resize env;
     apprise_add := apprise_add env;
     apprise_len := apprise_len env;
     apprise_notify := apprise_notify env |}.

(** A sink that takes no URL. *)
Definition env_rejecting : Env :=
  {| os_path_getsize := os_path_getsize env;
     os_path_splitext_ext := os_path_splitext_ext env;
     tempfile_name := tempfile_name env;
     ArtResizer_resize := ArtResizer_resize env;
     apprise_add := fun _ _ => false;
     apprise_len := fun _ => 0;
     apprise_notify := apprise_notify env |}.

(** The defaults of [self.config.add], with one URL. *)
Definition cfg : Config :=
  {| apprise_urls := [lit "json://localhost"];
     truncate := 3;
     body_maxlength := 1024;
     artwork := true;
     artwork_maxsize := 0;
     show_first_art := true |}.

Definition with_truncate (t : Z) (c : Config) : Config :=
  {| apprise_urls := apprise_urls c; truncate := t;
     body_maxlength := body_maxlength c; artwork := artwork c;
     artwork_maxsize := artwork_maxsize c;
     show_first_art := show_first_art c |}.

Definition with_body_maxlength (n : Z) (c : Config) : Config :=
  {| apprise_urls := apprise_urls c; truncate := truncate c;
     body_maxlength := n; artwork := artwork c;
     artwork_maxsize := artwork_maxsize c;
     show_first_art := show_first_art c |}.

Definition with_urls (us : list str) (c : Config) : Config :=
  {| apprise_urls := us; truncate := truncate c;
     body_maxlength := body_maxlength c; artwork := artwork c;
     artwork_maxsize := artwork_maxsize c;
     show_first_art := show_first_art c |}.

Definition fresh : State := {| imported_albums := []; events := [] |}.

Definition after (albums : list Album) : State :=
  {| imported_albums := albums; events := [] |}.

End Sample.

(** What [build_message] does about artwork: the value of [artwork_path]
    at the end of the loop and the state then. *)
Definition first_artwork (env : Env) (cfg : Config) (albums : list Album)
    (st : State) : option str * State :=
  match listed cfg albums with
  | [] => (None, st)
  | alb :: _ =>
      match artwork_step env cfg 0 alb None st with
      | (Ok a, st1) => (a, st1)
      | (Raise _, st1) => (None, st1)
      end
  end.

(** ** The plugin in its host *)

(** The defaults given to [self.config.add] in [__init__]. *)
Definition default_config : Config :=
  {| apprise_urls := [];
     truncate := 3;
     body_maxlength := 1024;
     artwork := true;
     artwork_maxsize := 0;
     show_first_art := true |}.

(** The host fires the [album_imported] listener once per imported album,
    in import order. *)
Fixpoint import_all (albums : list Album) : M unit :=
  match albums with
  | [] => ret tt
  | alb :: rest => album_imported alb ;;; import_all rest
  end.


(** The text of [album.artpath] as the [try] block reads it. *)
Definition decoded_artpath (alb : Album) : option str :=
  match artpath alb with
  | PNone => None
  | PStr s => Some s
  | PBytes b => utf8_decode (map Byte.to_N b)
  end.


Definition log_artwork_failed (e : exn) : Event :=
  EvLog LDebug "failed to process artwork: {}" [ArgExn e].

Definition log_sending (n : Z) : Event :=
  EvLog LDebug "sending notification for {} album(s)" [ArgInt n].

Definition log_no_urls : Event :=
  EvLog LDebug "no apprise URLs configured" [].

Module Scenario.

(** The sink takes every URL and [notify] reports a failure. *)
Definition env_failing : Env :=
  {| os_path_getsize := os_path_getsize Sample.env;
     os_path_splitext_ext := os_path_splitext_ext Sample.env;
     tempfile_name := tempfile_name Sample.env;
     ArtResizer_resize := ArtResizer_resize Sample.env;
     apprise_add := apprise_add Sample.env;
     apprise_len := apprise_len Sample.env;
     apprise_notify := fun _ _ _ _ => Ok false |}.

(** The resizer raises on every image. *)
Definition env_no_resizer : Env :=
  {| os_path_getsize := os_path_getsize Sample.env;
     os_path_splitext_ext := os_path_splitext_ext Sample.env;
     tempfile_name := tempfile_name Sample.env;
     ArtResizer_resize := fun _ _ _ _ => Raise (Exception (lit "no backend"));
     apprise_add := apprise_add Sample.env;
     apprise_len := apprise_len Sample.env;
     apprise_notify := apprise_notify Sample.env |}.

(** [Sample.cfg] with a file size cap. *)
Definition cfg_capped (max_size : Z) : Config :=
  {| apprise_urls := apprise_urls Sample.cfg;
     truncate := truncate Sample.cfg;
     body_maxlength := body_maxlength Sample.cfg;
     artwork := artwork Sample.cfg;
     artwork_maxsize := max_size;
     show_first_art := show_first_art Sample.cfg |}.

(** [Sample.cfg] without artwork. *)
Definition cfg_no_artwork : Config :=
  {| apprise_urls := apprise_urls Sample.cfg;
     truncate := truncate Sample.cfg;
     body_maxlength := body_maxlength Sample.cfg;
     artwork := false;
     artwork_maxsize := artwork_maxsize Sample.cfg;
     show_first_art := show_first_art Sample.cfg |}.

End Scenario.

(** * Properties *)

(** ** Lists, slices and strings *)

Lemma len_nonneg {A : Type} (xs : list A) : 0 <= len xs.
Proof. unfold len. lia. Qed.

Lemma len_app {A : Type} (xs ys : list A) : len (xs ++ ys) = len xs + len ys.
Proof. unfold len. rewrite length_app. lia. Qed.

Lemma slice_to_nonneg {A : Type} (xs : list A) (k : Z) :
  0 <= k -> slice_to xs k = firstn (Z.to_nat k) xs.
Proof.
  intros Hk. unfold slice_to.
  destruct (Z.ltb_spec k 0); [lia | reflexivity].
Qed.

Lemma len_slice_to_le {A : Type} (xs : list A) (k : Z) :
  0 <= k -> len (slice_to xs k) <= k.
Proof.
  intros Hk. rewrite slice_to_nonneg by assumption.
  unfold len. rewrite length_firstn. lia.
Qed.

Lemma last_app_nonempty {A : Type} (xs ys : list A) (d : A) :
  ys <> [] -> last (xs ++ ys) d = last ys d.
Proof.
  intros Hys. induction xs as [|x xs IH]; [reflexivity|].
  simpl. rewrite IH.
  destruct (xs ++ ys) eqn:E; [|reflexivity].
  apply app_eq_nil in E. tauto.
Qed.

Lemma join_cons_cons (sep p q : str) (rest : list str) :
  join sep (p :: q :: rest) = p ++ sep ++ join sep (q :: rest).
Proof. reflexivity. Qed.

(** A joined text ends as its last part does. *)
Lemma last_join (sep : str) (parts : list str) (c d : char) :
  parts <> [] ->
  (forall p, In p parts -> last p d = c /\ p <> []) ->
  last (join sep parts) d = c /\ join sep parts <> [].
Proof.
  induction parts as [|p rest IH]; [congruence|].
  intros _ Hall. destruct rest as [|q rest].
  - simpl. apply Hall. now left.
  - rewrite join_cons_cons.
    destruct IH as [IHl IHn]; [congruence | intros r Hr; apply Hall; now right |].
    split.
    + rewrite app_assoc. rewrite last_app_nonempty by assumption. exact IHl.
    + intros E. apply app_eq_nil in E. destruct E as [_ E].
      apply app_eq_nil in E. tauto.
Qed.

Lemma format_line_last (alb : Album) (d : char) :
  last (format_line alb) d = 41%N /\ format_line alb <> [].
Proof.
  unfold format_line. split.
  - rewrite !app_assoc. now rewrite last_app_nonempty by discriminate.
  - intros E. repeat (apply app_eq_nil in E; destruct E as [_ E]).
    discriminate.
Qed.

Lemma more_line_last (k : Z) (d : char) : last (more_line k) d = 101%N.
Proof.
  unfold more_line. rewrite !app_assoc.
  now rewrite last_app_nonempty by discriminate.
Qed.

Lemma more_line_nonempty (k : Z) : more_line k <> [].
Proof. unfold more_line, nl. discriminate. Qed.

(** ** The loop of [build_message] *)

Section Compose.

Variable env : Env.
Variable cfg : Config.

Lemma artwork_step_later (i : nat) (alb : Album) (a : option str) :
  artwork_step env cfg (S i) alb a = ret a.
Proof. reflexivity. Qed.

(** After index 0 the loop only collects lines. *)
Lemma build_loop_later (albums : list Album) :
  forall (i : nat) (body_lines : list str) (a : option str) (st : State),
    build_loop env cfg (S i) albums body_lines a st
    = (Ok (body_lines ++ map format_line albums, a), st).
Proof.
  induction albums as [|alb rest IH]; intros i body_lines a st.
  - simpl. unfold ret. now rewrite app_nil_r.
  - simpl. rewrite artwork_step_later. unfold bind, ret.
    rewrite IH. now rewrite <- app_assoc.
Qed.

(** The artwork step never raises: it returns the old or a new path. *)
Lemma artwork_step_cases (alb : Album) (st : State) :
  artwork_step env cfg 0 alb None st
  = if artwork cfg && show_first_art cfg && path_truthy (artpath alb)
    then match artwork_attempt env cfg alb st with
         | (Ok p, st1) => (Ok (Some p), st1)
         | (Raise e, st1) =>
             (Ok None,
              add_event
                (EvLog LDebug "failed to process artwork: {}" [ArgExn e])
                st1)
         end
    else (Ok None, st).
Proof.
  unfold artwork_step.
  change (Nat.eqb 0 0 && artwork cfg) with (artwork cfg).
  destruct (artwork cfg && show_first_art cfg && path_truthy (artpath alb));
    [|reflexivity].
  unfold try_catch, bind, ret.
  destruct (artwork_attempt env cfg alb st) as [[p|e] st1]; reflexivity.
Qed.

Lemma artwork_step_ok (alb : Album) (st : State) :
  exists a st1, artwork_step env cfg 0 alb None st = (Ok a, st1).
Proof.
  rewrite artwork_step_cases.
  destruct (artwork cfg && show_first_art cfg && path_truthy (artpath alb));
    [|eauto].
  destruct (artwork_attempt env cfg alb st) as [[p|e] st1]; eauto.
Qed.

Lemma build_loop_run (albums : list Album) (st : State) :
  build_loop env cfg 0 albums [] None st
  = match albums with
    | [] => (Ok ([], None), st)
    | alb :: _ =>
        match artwork_step env cfg 0 alb None st with
        | (Ok a, st1) => (Ok (map format_line albums, a), st1)
        | (Raise e, st1) => (Raise e, st1)
        end
    end.
Proof.
  destruct albums as [|alb rest]; [reflexivity|].
  simpl. unfold bind at 1.
  destruct (artwork_step env cfg 0 alb None st) as [[a|e] st1];
    [|reflexivity].
  now rewrite build_loop_later.
Qed.

(** [build_message] always returns: the title and the body are functions
    of the batch and the configuration alone. *)
Lemma build_message_run (albums : list Album) (st : State) :
  build_message env cfg albums st
  = (Ok (build_title albums, final_body cfg albums,
         fst (first_artwork env cfg albums st)),
     snd (first_artwork env cfg albums st)).
Proof.
  unfold build_message, first_artwork, final_body, assembled_body.
  unfold bind at 1. fold (listed cfg albums).
  rewrite build_loop_run.
  destruct (listed cfg albums) as [|alb rest] eqn:E; [reflexivity|].
  destruct (artwork_step_ok alb st) as (a & st1 & Ha).
  rewrite Ha. reflexivity.
Qed.

End Compose.

(** ** What is listed *)

Lemma listed_nonneg (cfg : Config) (albums : list Album) :
  0 <= truncate cfg ->
  listed cfg albums
  = firstn (Z.to_nat (Z.min (len albums) (truncate cfg))) albums.
Proof.
  intros Ht. unfold listed. apply slice_to_nonneg.
  pose proof (len_nonneg albums). lia.
Qed.

Lemma listed_zero (cfg : Config) (albums : list Album) :
  truncate cfg = 0 -> listed cfg albums = [].
Proof.
  intros Ht. rewrite listed_nonneg by lia. rewrite Ht.
  pose proof (len_nonneg albums).
  replace (Z.min (len albums) 0) with 0 by lia. reflexivity.
Qed.

Lemma listed_head (cfg : Config) (alb : Album) (rest : list Album) :
  1 <= truncate cfg ->
  exists tl, listed cfg (alb :: rest) = alb :: tl.
Proof.
  intros Ht. rewrite listed_nonneg by lia.
  assert (Hn : 1 <= Z.min (len (alb :: rest)) (truncate cfg)).
  { unfold len. simpl length. lia. }
  destruct (Z.to_nat (Z.min (len (alb :: rest)) (truncate cfg))) as [|m] eqn:E;
    [lia|].
  simpl. eauto.
Qed.

Lemma assembled_body_eq (cfg : Config) (albums : list Album) :
  0 <= truncate cfg ->
  let n := Z.min (len albums) (truncate cfg) in
  let k := len albums - n in
  assembled_body cfg albums
  = join nl (map format_line (firstn (Z.to_nat n) albums))
      ++ (if 0 <? k then more_line k else []).
Proof.
  intros Ht n k. unfold assembled_body, add_truncation_message.
  rewrite listed_nonneg by assumption. fold n. fold k.
  destruct (Z.gtb_spec (len albums) n) as [H|H];
    destruct (Z.ltb_spec 0 k) as [H'|H']; try (unfold k in *; lia).
  - reflexivity.
  - now rewrite app_nil_r.
Qed.

(** The cap of "Truncate body if too long" holds from three characters on. *)
Lemma truncate_body_cap (max_length : Z) (body : str) :
  3 <= max_length ->
  len (truncate_body max_length body) <= max_length
  /\ (max_length < len body ->
      truncate_body max_length body
      = firstn (Z.to_nat (max_length - 3)) body ++ lit "...").
Proof.
  intros Hm. unfold truncate_body.
  destruct (Z.gtb_spec (len body) max_length) as [H|H].
  - split.
    + rewrite len_app.
      pose proof (@len_slice_to_le _ body (max_length - 3)).
      change (len (lit "...")) with 3. lia.
    + intros _. now rewrite slice_to_nonneg by lia.
  - split; [assumption | lia].
Qed.

(** ** Claims on message composition *)

(** C4, as the code has it: for every batch of size N the composed title is
    exactly "Beets: <N> album imported" when N = 1 and
    "Beets: <N> albums imported" otherwise; the title carries the prefix
    "Beets: ". *)
Theorem build_message_title (env : Env) (cfg : Config) (albums : list Album)
    (st : State) :
  msg_title (fst (build_message env cfg albums st))
  = Some (lit "Beets: " ++ str_of_int (len albums)
          ++ (if len albums =? 1 then lit " album imported"
              else lit " albums imported")).
Proof.
  rewrite build_message_run. simpl. unfold build_title.
  destruct (len albums =? 1); reflexivity.
Qed.

(** C4 as stated fails: a batch of three is titled
    "Beets: 3 albums imported", not "3 albums imported". *)
Lemma build_message_title_has_prefix :
  msg_title (fst (build_message Sample.env Sample.cfg Sample.three
                    Sample.fresh))
  = Some (lit "Beets: 3 albums imported")
  /\ msg_title (fst (build_message Sample.env Sample.cfg Sample.three
                       Sample.fresh))
     <> Some (lit "3 albums imported").
Proof. split; [reflexivity | discriminate]. Qed.

(** C3: for a batch of N >= 1 albums and truncate T >= 0 the body lists
    exactly min(N, T) albums, the first min(N, T) of the batch in order,
    each as "<artist> - <title> (<year>)" and joined by line feeds, and
    before the length bound it ends with the line "...and K more" if and
    only if K = N - min(N, T) > 0. *)
Theorem build_message_listing (env : Env) (cfg : Config)
    (albums : list Album) (st : State) :
  albums <> [] ->
  0 <= truncate cfg ->
  let n := Z.min (len albums) (truncate cfg) in
  let k := len albums - n in
  let shown := firstn (Z.to_nat n) albums in
  let assembled :=
    join nl (map format_line shown) ++ (if 0 <? k then more_line k else []) in
  len shown = n
  /\ msg_body (fst (build_message env cfg albums st))
     = Some (truncate_body (body_maxlength cfg) assembled)
  /\ (0 < k <-> ends_with (more_line k) assembled).
Proof.
  intros Hne Ht n k shown assembled.
  pose proof (len_nonneg albums) as Hlen.
  split; [|split].
  - unfold shown, len. rewrite length_firstn. unfold n, len in *. lia.
  - rewrite build_message_run. simpl. unfold final_body.
    now rewrite assembled_body_eq by assumption.
  - unfold assembled. split.
    + intros Hk. destruct (Z.ltb_spec 0 k); [|lia].
      now exists (join nl (map format_line shown)).
    + intros [front Hfront].
      destruct (Z.ltb_spec 0 k) as [|Hk]; [assumption|exfalso].
      rewrite app_nil_r in Hfront.
      assert (Hshown : shown = albums).
      { unfold shown. apply firstn_all2. unfold k, n, len in *. lia. }
      assert (Hlast : last (join nl (map format_line shown)) 0%N = 41%N).
      { apply last_join.
        - rewrite Hshown. destruct albums; [congruence | discriminate].
        - intros p Hp. apply in_map_iff in Hp. destruct Hp as (alb & <- & _).
          apply format_line_last. }
      rewrite Hfront in Hlast.
      rewrite last_app_nonempty in Hlast by apply more_line_nonempty.
      rewrite more_line_last in Hlast. discriminate.
Qed.

Lemma build_message_listing_witness :
  msg_body (fst (build_message Sample.env (Sample.with_truncate 2 Sample.cfg)
                   Sample.three Sample.fresh))
  = Some (lit "A - X (2020)" ++ nl ++ lit "B - Y (2021)" ++ nl
          ++ lit "...and 1 more").
Proof.
  assert (Hne : Sample.three <> []) by discriminate.
  assert (Ht : 0 <= truncate (Sample.with_truncate 2 Sample.cfg))
    by (simpl; lia).
  destruct (@build_message_listing Sample.env
              (Sample.with_truncate 2 Sample.cfg) Sample.three Sample.fresh
              Hne Ht)
    as (_ & Hbody & _).
  rewrite Hbody. reflexivity.
Defined.

(** C2 at a cap below three: with [body_maxlength] 2 the one-album body
    "A - X (2020)" is cut by [body[:-1]] and comes back as
    "A - X (2020...", 14 characters long. *)
Theorem build_message_body_cap_below_three :
  let cfg := Sample.with_body_maxlength 2 Sample.cfg in
  0 < body_maxlength cfg
  /\ msg_body (fst (build_message Sample.env cfg Sample.one Sample.fresh))
     = Some (lit "A - X (2020...")
  /\ len (lit "A - X (2020...") = 14
  /\ ~ len (lit "A - X (2020...") <= body_maxlength cfg.
Proof.
  cbv zeta. split; [reflexivity|]. split; [reflexivity|].
  split; [reflexivity|].
  change (len (lit "A - X (2020...")) with 14. simpl. lia.
Qed.

(** From a cap of three on, the body bound of C2 holds for every batch:
    the returned body is no longer than [body_maxlength], and a body that
    was too long comes back as its first [body_maxlength - 3] characters
    followed by "...". *)
Lemma build_message_body_cap_from_three (env : Env) (cfg : Config)
    (albums : list Album) (st : State) :
  3 <= body_maxlength cfg ->
  exists body,
    msg_body (fst (build_message env cfg albums st)) = Some body
    /\ len body <= body_maxlength cfg
    /\ (body_maxlength cfg < len (assembled_body cfg albums) ->
        body = firstn (Z.to_nat (body_maxlength cfg - 3))
                 (assembled_body cfg albums) ++ lit "...").
Proof.
  intros Hm. exists (final_body cfg albums).
  rewrite build_message_run. simpl. split; [reflexivity|].
  unfold final_body. now apply truncate_body_cap.
Qed.

(** The artwork of a batch is that of its first listed album. *)
Lemma first_artwork_head (env : Env) (cfg : Config) (alb : Album)
    (rest : list Album) (st : State) :
  1 <= truncate cfg ->
  first_artwork env cfg (alb :: rest) st
  = if artwork cfg && show_first_art cfg && path_truthy (artpath alb)
    then match artwork_attempt env cfg alb st with
         | (Ok p, st1) => (Some p, st1)
         | (Raise e, st1) =>
             (None,
              add_event
                (EvLog LDebug "failed to process artwork: {}" [ArgExn e]) st1)
         end
    else (None, st).
Proof.
  intros Ht. unfold first_artwork.
  destruct (listed_head cfg alb rest Ht) as [tl ->].
  rewrite artwork_step_cases.
  destruct (artwork cfg && show_first_art cfg && path_truthy (artpath alb));
    [|reflexivity].
  destruct (artwork_attempt env cfg alb st) as [[p|e] st1]; reflexivity.
Qed.

(** C1, as the code has it: for a non-empty batch and truncate T >= 0, the
    message carries the artwork path [p] if and only if [artwork] and
    [show_first_art] are both true, item 0 has a non-empty [artpath], at
    least one album is listed (T >= 1), and decoding and resizing item 0's
    path raised nothing and gave [p].  With T = 0 the loop has no
    iteration and nothing is attached. *)
Theorem build_message_artwork (env : Env) (cfg : Config) (alb : Album)
    (rest : list Album) (st : State) (p : str) :
  0 <= truncate cfg ->
  msg_artwork (fst (build_message env cfg (alb :: rest) st)) = Some p
  <-> artwork cfg = true
      /\ show_first_art cfg = true
      /\ path_truthy (artpath alb) = true
      /\ 1 <= truncate cfg
      /\ fst (artwork_attempt env cfg alb st) = Ok p.
Proof.
  intros Ht. rewrite build_message_run. simpl.
  destruct (Z.eq_dec (truncate cfg) 0) as [H0|H0].
  - unfold first_artwork. rewrite listed_zero by assumption. simpl.
    split; [discriminate | intros (_ & _ & _ & H1 & _); lia].
  - rewrite first_artwork_head by lia.
    destruct (artwork cfg); simpl;
      [|split; [discriminate | intros (H & _); discriminate]].
    destruct (show_first_art cfg); simpl;
      [|split; [discriminate | intros (_ & H & _); discriminate]].
    destruct (path_truthy (artpath alb)); simpl;
      [|split; [discriminate | intros (_ & _ & H & _); discriminate]].
    destruct (artwork_attempt env cfg alb st) as [[q|e] st1]; simpl.
    + split.
      * intros [= ->]. repeat split; lia.
      * intros (_ & _ & _ & _ & [= ->]). reflexivity.
    + split; [discriminate | intros (_ & _ & _ & _ & H); discriminate].
Qed.

Lemma build_message_artwork_witness :
  msg_artwork (fst (build_message Sample.env Sample.cfg Sample.three
                      Sample.fresh))
  = Some Sample.cover.
Proof.
  assert (Ht : 0 <= truncate Sample.cfg) by (simpl; lia).
  apply (proj2 (@build_message_artwork Sample.env Sample.cfg
                  (Sample.mk "A" "X" 2020 (PStr Sample.cover))
                  [Sample.mk "B" "Y" 2021 PNone; Sample.mk "C" "Z" 2022 PNone]
                  Sample.fresh Sample.cover Ht)).
  repeat split; simpl; lia.
Defined.

(** C1 as stated fails: with truncate 0 nothing is listed and no artwork is
    attached, although [artwork] and [show_first_art] are true and item 0
    has a non-empty [artpath]. *)
Lemma build_message_artwork_truncate_zero :
  let cfg := Sample.with_truncate 0 Sample.cfg in
  let alb := Sample.mk "A" "X" 2020 (PStr Sample.cover) in
  ~ (msg_artwork (fst (build_message Sample.env cfg [alb] Sample.fresh))
     <> None
     <-> artwork cfg = true /\ show_first_art cfg = true
         /\ path_truthy (artpath alb) = true).
Proof.
  cbv zeta. intros [_ H]. apply H; [|reflexivity].
  repeat split.
Qed.

(** C9: [build_message] never raises; its title and body are functions of
    the batch and the configuration alone, and when the processing of the
    first listed album's artwork raises [e], the exception is logged at
    debug level and the message has no artwork. *)
Theorem build_message_never_raises (env : Env) (cfg : Config)
    (albums : list Album) (st : State) :
  exists a st1,
    build_message env cfg albums st
    = (Ok (build_title albums, final_body cfg albums, a), st1)
    /\ forall alb rest e st0,
         listed cfg albums = alb :: rest ->
         artwork cfg = true ->
         show_first_art cfg = true ->
         path_truthy (artpath alb) = true ->
         artwork_attempt env cfg alb st = (Raise e, st0) ->
         a = None
         /\ st1 = add_event
                    (EvLog LDebug "failed to process artwork: {}" [ArgExn e])
                    st0.
Proof.
  exists (fst (first_artwork env cfg albums st)),
         (snd (first_artwork env cfg albums st)).
  split; [apply build_message_run|].
  intros alb rest e st0 Hl Ha Hs Hp Hr.
  unfold first_artwork. rewrite Hl, artwork_step_cases, Ha, Hs, Hp, Hr.
  simpl. split; reflexivity.
Qed.

(** C10: when item 0's [artpath] is a non-empty [bytes] value and artwork
    is enabled and listed, valid UTF-8 is decoded and the decoded text is
    what [resize_artwork] gets; bytes that are not valid UTF-8 give a
    message with no artwork and one debug record for the decode error. *)
Theorem build_message_bytes_artpath (env : Env) (cfg : Config) (alb : Album)
    (rest : list Album) (b : list byte) (st : State) :
  artpath alb = PBytes b ->
  b <> [] ->
  artwork cfg = true ->
  show_first_art cfg = true ->
  1 <= truncate cfg ->
  let albums := alb :: rest in
  match utf8_decode (map Byte.to_N b) with
  | Some s =>
      build_message env cfg albums st
      = match resize_artwork env s (artwork_maxsize cfg) st with
        | (Ok p, st1) =>
            (Ok (build_title albums, final_body cfg albums, Some p), st1)
        | (Raise e, st1) =>
            (Ok (build_title albums, final_body cfg albums, None),
             add_event
               (EvLog LDebug "failed to process artwork: {}" [ArgExn e]) st1)
        end
  | None =>
      build_message env cfg albums st
      = (Ok (build_title albums, final_body cfg albums, None),
         add_event
           (EvLog LDebug "failed to process artwork: {}"
              [ArgExn (UnicodeDecodeError b)]) st)
  end.
Proof.
  intros Hb Hne Ha Hs Ht albums. unfold albums.
  assert (Htruthy : path_truthy (artpath alb) = true).
  { rewrite Hb. destruct b; [congruence | reflexivity]. }
  assert (Hrun : forall x,
    first_artwork env cfg (alb :: rest) st = x ->
    build_message env cfg (alb :: rest) st
    = (Ok (build_title (alb :: rest), final_body cfg (alb :: rest), fst x),
       snd x)).
  { intros x <-. apply build_message_run. }
  rewrite first_artwork_head in Hrun by assumption.
  rewrite Ha, Hs, Htruthy in Hrun. simpl in Hrun.
  unfold artwork_attempt in Hrun. rewrite Hb in Hrun.
  unfold bytes_decode_utf8, bind, lift in Hrun.
  destruct (utf8_decode (map to_N b)) as [s|].
  - destruct (resize_artwork env s (artwork_maxsize cfg) st) as [[p|e] st1];
      exact (Hrun _ eq_refl).
  - exact (Hrun _ eq_refl).
Qed.

Lemma build_message_never_raises_witness :
  build_message Sample.env_missing Sample.cfg Sample.one Sample.fresh
  = (Ok (lit "Beets: 1 album imported", lit "A - X (2020)", None),
     add_event
       (EvLog LDebug "failed to process artwork: {}"
          [ArgExn (OSError Sample.cover)])
       Sample.fresh).
Proof.
  destruct (build_message_never_raises Sample.env_missing Sample.cfg
              Sample.one Sample.fresh) as (a & st1 & Hrun & Hfail).
  destruct (Hfail (Sample.mk "A" "X" 2020 (PStr Sample.cover)) []
              (OSError Sample.cover) Sample.fresh
              eq_refl eq_refl eq_refl eq_refl eq_refl) as [-> ->].
  exact Hrun.
Defined.

Lemma build_message_bytes_artpath_witness :
  build_message Sample.env Sample.cfg
    [Sample.mk "A" "X" 2020 (PBytes [x2f; xc3; x28])] Sample.fresh
  = (Ok (lit "Beets: 1 album imported", lit "A - X (2020)", None),
     add_event
       (EvLog LDebug "failed to process artwork: {}"
          [ArgExn (UnicodeDecodeError [x2f; xc3; x28])])
       Sample.fresh).
Proof.
  assert (Hne : [x2f; xc3; x28] <> []) by discriminate.
  assert (Ht : 1 <= truncate Sample.cfg) by (simpl; lia).
  exact (@build_message_bytes_artpath Sample.env Sample.cfg
           (Sample.mk "A" "X" 2020 (PBytes [x2f; xc3; x28])) []
           [x2f; xc3; x28] Sample.fresh eq_refl Hne eq_refl eq_refl Ht).
Defined.

(** Valid UTF-8 in a [bytes] path: "/é.jpg" is decoded before
    [resize_artwork] sees it. *)
Example build_message_bytes_decoded :
  msg_artwork
    (fst (build_message Sample.env Sample.cfg
            [Sample.mk "A" "X" 2020
               (PBytes [x2f; xc3; xa9; x2e; x6a; x70; x67])]
            Sample.fresh))
  = Some [47; 233; 46; 106; 112; 103]%N.
Proof. reflexivity. Qed.

Example utf8_decode_samples :
  utf8_decode [0xE2; 0x82; 0xAC]%N = Some [0x20AC%N]
  /\ utf8_decode [0xF0; 0x9F; 0x98; 0x80]%N = Some [0x1F600%N]
  /\ utf8_decode [0xED; 0xA0; 0x80]%N = None
  /\ utf8_decode [0xC0; 0x80]%N = None
  /\ utf8_decode [0xF4; 0x90; 0x80; 0x80]%N = None
  /\ utf8_decode [0xE2; 0x82]%N = None.
Proof. repeat split. Qed.

(** ASCII bytes decode to themselves. *)
Lemma utf8_decode_ascii (bs : list N) :
  Forall (fun b => (b < 0x80)%N) bs -> utf8_decode bs = Some bs.
Proof.
  induction 1 as [|b bs Hb _ IH]; [reflexivity|].
  simpl. destruct (N.ltb_spec b 128); [|lia].
  now rewrite IH.
Qed.

(** ** [resize_artwork] *)

(** C7: when the size of the file at [art_path] can be read, with
    [max_filesize] 0 or a size within [max_filesize] the call returns
    [art_path] itself and does nothing else; a temporary file and a resized
    copy come only with a size above a non-zero [max_filesize], and then
    the result is what the resizer returns for the new temporary path. *)
Theorem resize_artwork_within_cap (env : Env) (art_path : str)
    (max_filesize size : Z) (st : State) :
  os_path_getsize env art_path = Ok size ->
  (max_filesize = 0 \/ size <= max_filesize ->
   resize_artwork env art_path max_filesize st = (Ok art_path, st))
  /\ (resize_artwork env art_path max_filesize st <> (Ok art_path, st) ->
      max_filesize <> 0 /\ max_filesize < size)
  /\ (max_filesize <> 0 -> max_filesize < size ->
      forall tmp,
        tempfile_name env (events st) (os_path_splitext_ext env art_path)
        = Ok tmp ->
        resize_artwork env art_path max_filesize st
        = (ArtResizer_resize env 1000 art_path tmp max_filesize,
           grow st [EvTempFile tmp;
                    EvResize 1000 art_path tmp max_filesize])).
Proof.
  intros Hsize.
  assert (Hkeep : max_filesize = 0 \/ size <= max_filesize ->
                  resize_artwork env art_path max_filesize st
                  = (Ok art_path, st)).
  { intros Hc. unfold resize_artwork, bind, lift. rewrite Hsize.
    destruct (Z.eqb_spec max_filesize 0) as [|Hz]; [reflexivity|].
    destruct (Z.leb_spec size max_filesize); [reflexivity | lia]. }
  split; [exact Hkeep|]. split.
  - intros Hne.
    destruct (Z.eq_dec max_filesize 0) as [Hz|Hz];
      [exfalso; apply Hne, Hkeep; now left|].
    destruct (Z_le_gt_dec size max_filesize) as [Hle|Hgt];
      [exfalso; apply Hne, Hkeep; now right|].
    lia.
  - intros Hz Hlt tmp Htmp.
    unfold resize_artwork, bind at 1, lift at 1. rewrite Hsize.
    destruct (Z.eqb_spec max_filesize 0) as [|_]; [contradiction|].
    destruct (Z.leb_spec size max_filesize); [lia|].
    change (false || false) with false. cbv iota zeta.
    unfold bind at 1, NamedTemporaryFile. rewrite Htmp.
    unfold bind, emit, ret, resizer_resize, lift, grow. simpl.
    rewrite <- app_assoc. simpl.
    destruct (ArtResizer_resize env 1000 art_path tmp max_filesize);
      reflexivity.
Qed.

(** The size is read before [max_filesize] is looked at: a file whose
    size cannot be read makes the call raise, whatever the cap. *)
Lemma resize_artwork_unreadable (env : Env) (art_path : str)
    (max_filesize : Z) (e : exn) (st : State) :
  os_path_getsize env art_path = Raise e ->
  resize_artwork env art_path max_filesize st = (Raise e, st).
Proof.
  intros Hsize. unfold resize_artwork, bind, lift. now rewrite Hsize.
Qed.

Lemma resize_artwork_within_cap_witness :
  resize_artwork Sample.env Sample.cover 8192 Sample.fresh
  = (Ok Sample.cover, Sample.fresh)
  /\ resize_artwork Sample.env Sample.cover 1024 Sample.fresh
     = (Ok (lit "/tmp/tmpq3.jpg"),
        grow Sample.fresh
          [EvTempFile (lit "/tmp/tmpq3.jpg");
           EvResize 1000 Sample.cover (lit "/tmp/tmpq3.jpg") 1024]).
Proof.
  split.
  - apply (proj1 (@resize_artwork_within_cap Sample.env Sample.cover 8192
                    4096 Sample.fresh eq_refl)).
    right. lia.
  - apply (proj2 (proj2 (@resize_artwork_within_cap Sample.env Sample.cover
                           1024 4096 Sample.fresh eq_refl)));
      [lia | lia | reflexivity].
Defined.

(** ** Effects: what a run adds to the state *)

Lemma grow_nil (st : State) : grow st [] = st.
Proof. destruct st. unfold grow. simpl. now rewrite app_nil_r. Qed.

Lemma grow_grow (st : State) (xs ys : list Event) :
  grow (grow st xs) ys = grow st (xs ++ ys).
Proof. unfold grow. simpl. now rewrite app_assoc. Qed.

Lemma notify_count_app (xs ys : list Event) :
  notify_count (xs ++ ys) = (notify_count xs + notify_count ys)%nat.
Proof. unfold notify_count. now rewrite filter_app, length_app. Qed.

Create HintDb effects.

Lemma at_most_ret {A : Type} (a : A) : delivers_at_most 0 (ret a).
Proof. intros st. exists []. now rewrite grow_nil. Qed.

Lemma at_most_lift {A : Type} (r : Result A) : delivers_at_most 0 (lift r).
Proof. intros st. exists []. now rewrite grow_nil. Qed.

Lemma at_most_emit (ev : Event) :
  delivers_at_most (if is_notify ev then 1 else 0) (emit ev).
Proof.
  intros st. exists [ev]. split; [reflexivity|].
  unfold notify_count. simpl. destruct (is_notify ev); simpl; lia.
Qed.

Lemma at_most_log (lv : Level) (fmt : string) (args : list LogArg) :
  delivers_at_most 0 (log lv fmt args).
Proof. exact (at_most_emit (EvLog lv fmt args)). Qed.

Lemma at_most_bind {A B : Type} (a b : nat) (m : M A) (k : A -> M B) :
  delivers_at_most a m ->
  (forall x, delivers_at_most b (k x)) ->
  delivers_at_most (a + b) (bind m k).
Proof.
  intros Hm Hk st. unfold bind.
  destruct (Hm st) as (xs & Hxs & Hcx).
  destruct (m st) as [[x|e] st1]; simpl in Hxs; subst st1.
  - destruct (Hk x (grow st xs)) as (ys & Hys & Hcy).
    exists (xs ++ ys). rewrite Hys, grow_grow, notify_count_app.
    split; [reflexivity | lia].
  - exists xs. split; [reflexivity | lia].
Qed.

Lemma at_most_try_catch {A : Type} (a b : nat) (m : M A) (h : exn -> M A) :
  delivers_at_most a m ->
  (forall e, delivers_at_most b (h e)) ->
  delivers_at_most (a + b) (try_catch m h).
Proof.
  intros Hm Hh st. unfold try_catch.
  destruct (Hm st) as (xs & Hxs & Hcx).
  destruct (m st) as [[x|e] st1]; simpl in Hxs; subst st1.
  - exists xs. split; [reflexivity | lia].
  - destruct (Hh e (grow st xs)) as (ys & Hys & Hcy).
    exists (xs ++ ys). rewrite Hys, grow_grow, notify_count_app.
    split; [reflexivity | lia].
Qed.

Lemma at_most_mono {A : Type} (a b : nat) (m : M A) :
  (a <= b)%nat -> delivers_at_most a m -> delivers_at_most b m.
Proof.
  intros Hab Hm st. destruct (Hm st) as (new & H & Hc).
  exists new. split; [exact H | lia].
Qed.

(** Steps without a delivery compose to a step without a delivery. *)
Lemma quiet_bind {A B : Type} (m : M A) (k : A -> M B) :
  delivers_at_most 0 m ->
  (forall x, delivers_at_most 0 (k x)) ->
  delivers_at_most 0 (bind m k).
Proof. intros Hm Hk. exact (@at_most_bind A B 0 0 m k Hm Hk). Qed.

Lemma quiet_try_catch {A : Type} (m : M A) (h : exn -> M A) :
  delivers_at_most 0 m ->
  (forall e, delivers_at_most 0 (h e)) ->
  delivers_at_most 0 (try_catch m h).
Proof. intros Hm Hh. exact (@at_most_try_catch A 0 0 m h Hm Hh). Qed.

#[local] Hint Resolve at_most_ret at_most_lift at_most_log quiet_bind
  quiet_try_catch : effects.

Lemma quiet_NamedTemporaryFile (env : Env) (suffix : str) :
  delivers_at_most 0 (NamedTemporaryFile env suffix).
Proof.
  intros st. unfold NamedTemporaryFile.
  destruct (tempfile_name env (events st) suffix) as [name|e].
  - exists [EvTempFile name]. split; reflexivity.
  - exists []. now rewrite grow_nil.
Qed.

Lemma quiet_resizer_resize (env : Env) (w : Z) (path_in path_out : str)
    (max_filesize : Z) :
  delivers_at_most 0 (resizer_resize env w path_in path_out max_filesize).
Proof.
  unfold resizer_resize. apply quiet_bind; [|auto with effects].
  exact (at_most_emit (EvResize w path_in path_out max_filesize)).
Qed.

#[local] Hint Resolve quiet_NamedTemporaryFile quiet_resizer_resize : effects.

Lemma quiet_resize_artwork (env : Env) (art_path : str) (max_filesize : Z) :
  delivers_at_most 0 (resize_artwork env art_path max_filesize).
Proof.
  unfold resize_artwork. apply quiet_bind; [auto with effects|].
  intros size.
  destruct ((max_filesize =? 0) || (size <=? max_filesize));
    auto 6 with effects.
Qed.

#[local] Hint Resolve quiet_resize_artwork : effects.

Lemma quiet_artwork_attempt (env : Env) (cfg : Config) (alb : Album) :
  delivers_at_most 0 (artwork_attempt env cfg alb).
Proof. unfold artwork_attempt. auto with effects. Qed.

#[local] Hint Resolve quiet_artwork_attempt : effects.

Lemma quiet_artwork_step (env : Env) (cfg : Config) (i : nat) (alb : Album)
    (a : option str) :
  delivers_at_most 0 (artwork_step env cfg i alb a).
Proof.
  unfold artwork_step.
  destruct (Nat.eqb i 0 && artwork cfg && show_first_art cfg
            && path_truthy (artpath alb)); auto 6 with effects.
Qed.

#[local] Hint Resolve quiet_artwork_step : effects.

Lemma quiet_build_loop (env : Env) (cfg : Config) (albums : list Album) :
  forall (i : nat) (body_lines : list str) (a : option str),
    delivers_at_most 0 (build_loop env cfg i albums body_lines a).
Proof.
  induction albums as [|alb rest IH]; intros i body_lines a; simpl;
    auto with effects.
Qed.

#[local] Hint Resolve quiet_build_loop : effects.

Lemma quiet_build_message (env : Env) (cfg : Config) (albums : list Album) :
  delivers_at_most 0 (build_message env cfg albums).
Proof. unfold build_message. auto with effects. Qed.

(** The URL loop offers every URL, in order, and delivers nothing. *)
Lemma add_urls_run (env : Env) (urls : list str) :
  forall (apobj : list str) (st : State),
  exists new,
    add_urls env apobj urls st = (Ok (apobj ++ urls), grow st new)
    /\ notify_count new = 0%nat.
Proof.
  induction urls as [|url rest IH]; intros apobj st.
  - exists []. simpl. unfold ret. now rewrite app_nil_r, grow_nil.
  - simpl. unfold bind at 1.
    destruct (apprise_add env apobj url).
    + unfold ret. destruct (IH (apobj ++ [url]) st) as (new & Hrun & Hc).
      exists new. rewrite Hrun, <- app_assoc. now split.
    + unfold log, emit.
      destruct (IH (apobj ++ [url])
                  (grow st [EvLog LWarning "failed to add apprise URL" []]))
        as (new & Hrun & Hc).
      exists (EvLog LWarning "failed to add apprise URL" [] :: new).
      fold (grow st [EvLog LWarning "failed to add apprise URL" []]).
      rewrite Hrun, grow_grow, <- app_assoc. now split.
Qed.

(** The delivery block: one [notify] call and one log record. *)
Lemma deliver_run (env : Env) (apobj : list str) (title body : str)
    (a : option str) (st : State) :
  exists attach lv fmt args,
    snd (try_catch
           (success <-
              (if opt_truthy a
               then apobj_notify env apobj title body a
               else apobj_notify env apobj title body None) ;;
            if (success : bool) then
              log LInfo "notification sent to {} service(s)"
                  [ArgInt (apprise_len env apobj)]
            else log LError "notification failed" [])
           (fun e => log LError "notification error: {}" [ArgExn e]) st)
    = grow st [EvNotify title body attach; EvLog lv fmt args].
Proof.
  exists (if opt_truthy a then a else None).
  unfold try_catch, bind, apobj_notify, emit, log, emit, lift, grow.
  destruct (opt_truthy a); simpl.
  - destruct (apprise_notify env apobj title body a) as [[|]|e]; simpl;
      rewrite <- app_assoc; simpl; eauto.
  - destruct (apprise_notify env apobj title body None) as [[|]|e]; simpl;
      rewrite <- app_assoc; simpl; eauto.
Qed.

(** ** [send_notification] and [notify_on_cli_exit] *)

Lemma quiet_add_urls (env : Env) (urls apobj : list str) :
  delivers_at_most 0 (add_urls env apobj urls).
Proof.
  intros st. destruct (add_urls_run env urls apobj st) as (new & Hrun & Hc).
  exists new. rewrite Hrun. split; [reflexivity | lia].
Qed.

Lemma at_most_apobj_notify (env : Env) (apobj : list str) (title body : str)
    (attach : option str) :
  delivers_at_most 1 (apobj_notify env apobj title body attach).
Proof.
  unfold apobj_notify.
  apply (@at_most_bind _ _ 1 0); [|auto with effects].
  exact (at_most_emit (EvNotify title body attach)).
Qed.

(** [send_notification] only appends events, and leaves the collected
    albums as they are. *)
Lemma at_most_send_notification (env : Env) (cfg : Config)
    (albums : list Album) :
  delivers_at_most 1 (send_notification env cfg albums).
Proof.
  unfold send_notification.
  destruct (negb (nonempty (apprise_urls cfg))).
  - apply (@at_most_mono _ 0 1); [lia | apply at_most_log].
  - apply (@at_most_bind _ _ 0 1); [apply quiet_build_message|].
    intros [[title body] artwork_path].
    apply (@at_most_bind _ _ 0 1); [apply quiet_add_urls|].
    intros apobj.
    destruct (apprise_len env apobj =? 0).
    + apply (@at_most_mono _ 0 1); [lia | apply at_most_log].
    + apply (@at_most_try_catch _ 1 0); [|auto with effects].
      apply (@at_most_bind _ _ 1 0).
      * destruct (opt_truthy artwork_path); apply at_most_apobj_notify.
      * intros [|]; auto with effects.
Qed.

(** C8: [send_notification] calls the sink's [notify] at most once, and
    exactly when URLs are configured and the Apprise object holds at least
    one service after they were offered.  With no URL configured it only
    logs one debug record; with URLs of which none was taken it logs an
    error last and makes no delivery. *)
Theorem send_notification_delivers_once (env : Env) (cfg : Config)
    (albums : list Album) (st : State) :
  exists new,
    snd (send_notification env cfg albums st) = grow st new
    /\ (notify_count new <= 1)%nat
    /\ (notify_count new = 1%nat
        <-> apprise_urls cfg <> []
            /\ apprise_len env (apprise_urls cfg) <> 0)
    /\ (apprise_urls cfg = [] ->
        new = [EvLog LDebug "no apprise URLs configured" []])
    /\ (apprise_urls cfg <> [] ->
        apprise_len env (apprise_urls cfg) = 0 ->
        notify_count new = 0%nat
        /\ exists before,
             new = before
                   ++ [EvLog LError "no valid apprise URLs configured" []]).
Proof.
  unfold send_notification.
  destruct (apprise_urls cfg) as [|url urls] eqn:Hurls.
  - exists [EvLog LDebug "no apprise URLs configured" []]. simpl.
    split; [reflexivity|]. split; [unfold notify_count; simpl; lia|].
    split; [|split].
    + split; [discriminate | intros [Hne _]; congruence].
    + reflexivity.
    + congruence.
  - change (negb (nonempty (url :: urls))) with false. cbv iota.
    unfold bind at 1.
    destruct (quiet_build_message env cfg albums st) as (new1 & Hst1 & Hc1).
    rewrite build_message_run in *. simpl in Hst1. rewrite Hst1.
    unfold bind at 1.
    destruct (add_urls_run env (url :: urls) [] (grow st new1))
      as (new2 & -> & Hc2).
    cbv beta iota. rewrite !app_nil_l.
    destruct (Z.eq_dec (apprise_len env (url :: urls)) 0) as [Hz|Hz].
    + rewrite (proj2 (Z.eqb_eq _ _) Hz).
      exists (new1 ++ new2
              ++ [EvLog LError "no valid apprise URLs configured" []]).
      assert (Hc : notify_count
                     (new1 ++ new2
                      ++ [EvLog LError "no valid apprise URLs configured" []])
                   = 0%nat).
      { rewrite !notify_count_app. unfold notify_count at 3. simpl. lia. }
      split; [|split; [|split; [|split]]].
      * unfold log, emit. simpl. unfold grow. simpl.
        now rewrite <- !app_assoc.
      * lia.
      * rewrite Hc. split; [discriminate | intros [_ H]; contradiction].
      * discriminate.
      * intros _ _. split; [exact Hc|].
        exists (new1 ++ new2). now rewrite <- app_assoc.
    + rewrite (proj2 (Z.eqb_neq _ _) Hz).
      destruct (deliver_run env (url :: urls) (build_title albums)
                  (final_body cfg albums)
                  (fst (first_artwork env cfg albums st))
                  (grow (grow st new1) new2))
        as (attach & lv & fmt & args & ->).
      exists (new1 ++ new2
              ++ [EvNotify (build_title albums) (final_body cfg albums) attach;
                  EvLog lv fmt args]).
      assert (Hc : notify_count
                     (new1 ++ new2
                      ++ [EvNotify (build_title albums)
                            (final_body cfg albums) attach;
                          EvLog lv fmt args])
                   = 1%nat).
      { rewrite !notify_count_app. unfold notify_count at 3. simpl. lia. }
      split; [|split; [|split; [|split]]].
      * now rewrite !grow_grow.
      * lia.
      * rewrite Hc. split; [intros _; split; [discriminate | exact Hz]
                           | reflexivity].
      * discriminate.
      * intros _ H. contradiction.
Qed.

(** The spec's example: the one configured URL is rejected by the sink;
    a warning and the error are logged and [notify] is not called. *)
Example send_notification_rejected :
  send_notification Sample.env_rejecting
    (Sample.with_urls [lit "bad://x"] Sample.cfg) Sample.three Sample.fresh
  = (Ok tt,
     grow Sample.fresh
       [EvLog LWarning "failed to add apprise URL" [];
        EvLog LError "no valid apprise URLs configured" []]).
Proof. reflexivity. Qed.


Lemma send_notification_delivers_once_witness :
  exists new,
    snd (send_notification Sample.env_rejecting
           (Sample.with_urls [lit "bad://x"] Sample.cfg) Sample.three
           Sample.fresh)
    = grow Sample.fresh new
    /\ notify_count new = 0%nat.
Proof.
  destruct (send_notification_delivers_once Sample.env_rejecting
              (Sample.with_urls [lit "bad://x"] Sample.cfg) Sample.three
              Sample.fresh) as (new & Hnew & _ & _ & _ & Hnone).
  exists new. split; [exact Hnew|].
  apply Hnone; [discriminate | reflexivity].
Defined.

(** C5, as the code has it: with an empty batch at run end the handler
    returns at once; no message is composed, nothing is delivered and no
    log record at all is written, so the state is the one before. *)
Theorem notify_on_cli_exit_empty (env : Env) (cfg : Config) (st : State) :
  imported_albums st = [] ->
  notify_on_cli_exit env cfg st = (Ok tt, st).
Proof.
  intros Hempty. unfold notify_on_cli_exit. now rewrite Hempty.
Qed.

Lemma notify_on_cli_exit_empty_witness :
  notify_on_cli_exit Sample.env Sample.cfg Sample.fresh
  = (Ok tt, Sample.fresh).
Proof.
  apply (@notify_on_cli_exit_empty Sample.env Sample.cfg Sample.fresh).
  reflexivity.
Defined.

(** C5 as stated fails: with an empty batch the number of debug records
    written is 0, not 1. *)
Lemma notify_on_cli_exit_empty_no_debug :
  imported_albums Sample.fresh = []
  /\ events Sample.fresh = []
  /\ debug_count
       (events (snd (notify_on_cli_exit Sample.env Sample.cfg Sample.fresh)))
     <> 1%nat.
Proof. repeat split. discriminate. Qed.

(** A non-empty batch gets the debug record and goes to
    [send_notification] whole. *)
Lemma notify_on_cli_exit_nonempty (env : Env) (cfg : Config) (st : State) :
  imported_albums st <> [] ->
  notify_on_cli_exit env cfg st
  = send_notification env cfg (imported_albums st)
      (add_event
         (EvLog LDebug "sending notification for {} album(s)"
            [ArgInt (len (imported_albums st))]) st).
Proof.
  intros Hne. unfold notify_on_cli_exit.
  destruct (imported_albums st) as [|alb rest] eqn:E; [congruence|].
  simpl negb. cbv iota. unfold bind, log, emit, add_event. now rewrite E.
Qed.

Lemma at_most_notify_on_cli_exit (env : Env) (cfg : Config) :
  delivers_at_most 1 (notify_on_cli_exit env cfg).
Proof.
  intros st.
  destruct (imported_albums st) as [|alb rest] eqn:E.
  - exists []. unfold notify_on_cli_exit. rewrite E. simpl.
    rewrite grow_nil. split; [reflexivity | unfold notify_count; simpl; lia].
  - rewrite notify_on_cli_exit_nonempty by congruence.
    destruct (at_most_send_notification env cfg (imported_albums st)
                (add_event
                   (EvLog LDebug "sending notification for {} album(s)"
                      [ArgInt (len (imported_albums st))]) st))
      as (new & Hnew & Hc).
    exists (EvLog LDebug "sending notification for {} album(s)"
              [ArgInt (len (imported_albums st))] :: new).
    rewrite Hnew. split.
    + change (add_event ?ev st) with (grow st [ev]). now rewrite grow_grow.
    + unfold notify_count in *. simpl. exact Hc.
Qed.

(** C6, as the code has it: at run end the handler hands the whole
    collected sequence to [send_notification] and does not reset the
    collector; whatever the outcome, the batch is still there afterwards,
    and an album imported later is appended to it. *)
Theorem notify_on_cli_exit_keeps_batch (env : Env) (cfg : Config)
    (st : State) :
  imported_albums (snd (notify_on_cli_exit env cfg st)) = imported_albums st
  /\ (imported_albums st <> [] ->
      notify_on_cli_exit env cfg st
      = (log LDebug "sending notification for {} album(s)"
             [ArgInt (len (imported_albums st))] ;;;
         send_notification env cfg (imported_albums st)) st)
  /\ forall alb,
       imported_albums
         (snd (album_imported alb (snd (notify_on_cli_exit env cfg st))))
       = imported_albums st ++ [alb].
Proof.
  destruct (at_most_notify_on_cli_exit env cfg st) as (new & Hnew & _).
  split; [|split].
  - now rewrite Hnew.
  - intros Hne. unfold notify_on_cli_exit.
    destruct (imported_albums st); [congruence | reflexivity].
  - intros alb. now rewrite Hnew.
Qed.

Lemma notify_on_cli_exit_keeps_batch_witness :
  imported_albums
    (snd (notify_on_cli_exit Sample.env Sample.cfg
            (Sample.after Sample.three)))
  = Sample.three.
Proof.
  exact (proj1 (notify_on_cli_exit_keeps_batch Sample.env Sample.cfg
                  (Sample.after Sample.three))).
Defined.

(** C6 as stated fails: after the end-of-run notification of a batch of
    three, the collector still holds the three albums. *)
Lemma notify_on_cli_exit_no_reset :
  imported_albums
    (snd (notify_on_cli_exit Sample.env Sample.cfg
            (Sample.after Sample.three)))
  <> [].
Proof. discriminate. Qed.

(** * Further properties of the plugin *)

(** ** The collector *)

Lemma import_all_run (albums : list Album) :
  forall st,
    import_all albums st
    = (Ok tt, {| imported_albums := imported_albums st ++ albums;
                 events := events st |}).
Proof.
  induction albums as [|alb rest IH]; intros st.
  - simpl. unfold ret. destruct st. simpl. now rewrite app_nil_r.
  - simpl. unfold bind, album_imported. rewrite IH. simpl.
    now rewrite <- app_assoc.
Qed.

(** X1: importing albums one after the other never fails, appends them to
    the collected batch in import order, keeps what was collected before
    and writes no event. *)
Theorem import_all_appends (albums : list Album) (st : State) :
  fst (import_all albums st) = Ok tt
  /\ imported_albums (snd (import_all albums st))
     = imported_albums st ++ albums
  /\ events (snd (import_all albums st)) = events st
  /\ forall more,
       imported_albums (snd (import_all more (snd (import_all albums st))))
       = imported_albums (snd (import_all (albums ++ more) st)).
Proof.
  rewrite import_all_run. simpl. repeat split.
  intros more. rewrite !import_all_run. simpl. now rewrite app_assoc.
Qed.

(** ** [resize_artwork], case by case *)

Lemma resize_artwork_cases (env : Env) (art_path : str) (max_filesize : Z)
    (st : State) :
  resize_artwork env art_path max_filesize st
  = match os_path_getsize env art_path with
    | Raise e => (Raise e, st)
    | Ok size =>
        if (max_filesize =? 0) || (size <=? max_filesize)
        then (Ok art_path, st)
        else
          match tempfile_name env (events st)
                  (os_path_splitext_ext env art_path) with
          | Raise e => (Raise e, st)
          | Ok tmp =>
              (ArtResizer_resize env 1000 art_path tmp max_filesize,
               grow st [EvTempFile tmp;
                        EvResize 1000 art_path tmp max_filesize])
          end
    end.
Proof.
  unfold resize_artwork, bind at 1, lift at 1.
  destruct (os_path_getsize env art_path) as [size|e]; [|reflexivity].
  destruct ((max_filesize =? 0) || (size <=? max_filesize)); [reflexivity|].
  cbv zeta. unfold bind at 1, NamedTemporaryFile.
  destruct (tempfile_name env (events st)
              (os_path_splitext_ext env art_path)) as [tmp|e];
    [|reflexivity].
  unfold bind, emit, ret, resizer_resize, lift, grow. simpl.
  rewrite <- app_assoc. simpl.
  destruct (ArtResizer_resize env 1000 art_path tmp max_filesize);
    reflexivity.
Qed.

(** X2: [resize_artwork] raises [e] exactly when reading the size raises
    [e], or the file is above a non-zero cap and either creating the
    temporary file or the resizer raises [e]; it swallows no error. *)
Theorem resize_artwork_raises (env : Env) (art_path : str)
    (max_filesize : Z) (st : State) (e : exn) :
  fst (resize_artwork env art_path max_filesize st) = Raise e
  <-> os_path_getsize env art_path = Raise e
      \/ exists size,
           os_path_getsize env art_path = Ok size
           /\ max_filesize <> 0
           /\ max_filesize < size
           /\ (tempfile_name env (events st)
                 (os_path_splitext_ext env art_path) = Raise e
               \/ exists tmp,
                    tempfile_name env (events st)
                      (os_path_splitext_ext env art_path) = Ok tmp
                    /\ ArtResizer_resize env 1000 art_path tmp max_filesize
                       = Raise e).
Proof.
  rewrite resize_artwork_cases.
  destruct (os_path_getsize env art_path) as [size|e0].
  - destruct (Z.eqb_spec max_filesize 0) as [Hz|Hz]; simpl orb.
    + simpl. split; [discriminate|].
      intros [H|(sz & _ & Hne & _)]; [discriminate | contradiction].
    + destruct (Z.leb_spec size max_filesize) as [Hle|Hgt].
      * simpl. split; [discriminate|].
        intros [H|(sz & [= <-] & _ & Hlt & _)]; [discriminate | lia].
      * destruct (tempfile_name env (events st)
                    (os_path_splitext_ext env art_path)) as [tmp|e1]; simpl.
        -- split.
           ++ intros H. right. exists size. repeat split; try assumption.
              right. exists tmp. now split.
           ++ intros [H|(sz & _ & _ & _ & [H|(t & [= <-] & H)])];
                try discriminate. exact H.
        -- split.
           ++ intros [= ->]. right. exists size.
              repeat split; try assumption. now left.
           ++ intros [H|(sz & _ & _ & _ & [[= ->]|(t & H & _)])];
                try discriminate. reflexivity.
  - simpl. split.
    + intros [= ->]. now left.
    + intros [[= ->]|(sz & H & _)]; [reflexivity | discriminate].
Qed.

(** With [max_filesize] 0 the call has no effect at all, whatever the
    path: it returns the path, or the error of reading its size. *)
Lemma resize_artwork_no_cap (env : Env) (art_path : str) (st : State) :
  resize_artwork env art_path 0 st
  = (match os_path_getsize env art_path with
     | Ok _ => Ok art_path
     | Raise e => Raise e
     end, st).
Proof.
  rewrite resize_artwork_cases.
  destruct (os_path_getsize env art_path); reflexivity.
Qed.

(** ** The effects of [build_message] *)

Lemma artwork_attempt_cases (env : Env) (cfg : Config) (alb : Album)
    (st : State) :
  artwork_attempt env cfg alb st
  = match artpath alb with
    | PNone => (Raise TypeError, st)
    | PStr s => resize_artwork env s (artwork_maxsize cfg) st
    | PBytes b =>
        match utf8_decode (map Byte.to_N b) with
        | Some s => resize_artwork env s (artwork_maxsize cfg) st
        | None => (Raise (UnicodeDecodeError b), st)
        end
    end.
Proof.
  unfold artwork_attempt, bind, lift, bytes_decode_utf8.
  destruct (artpath alb) as [|s|b]; try reflexivity.
  destruct (utf8_decode (map to_N b)); reflexivity.
Qed.

(** The [try] block either leaves the state alone or adds one temporary
    file and one resizer call for the decoded path. *)
Lemma artwork_attempt_effects (env : Env) (cfg : Config) (alb : Album)
    (st : State) :
  exists pre,
    snd (artwork_attempt env cfg alb st) = grow st pre
    /\ (pre = []
        \/ exists tmp p,
             decoded_artpath alb = Some p
             /\ pre = [EvTempFile tmp;
                       EvResize 1000 p tmp (artwork_maxsize cfg)])
    /\ forall p, fst (artwork_attempt env cfg alb st) = Ok p ->
         pre = [] -> decoded_artpath alb = Some p.
Proof.
  assert (Hresize : forall s,
    decoded_artpath alb = Some s ->
    exists pre,
      snd (resize_artwork env s (artwork_maxsize cfg) st) = grow st pre
      /\ (pre = []
          \/ exists tmp p,
               decoded_artpath alb = Some p
               /\ pre = [EvTempFile tmp;
                         EvResize 1000 p tmp (artwork_maxsize cfg)])
      /\ forall p,
           fst (resize_artwork env s (artwork_maxsize cfg) st) = Ok p ->
           pre = [] -> decoded_artpath alb = Some p).
  { intros s Hs. rewrite resize_artwork_cases.
    destruct (os_path_getsize env s) as [size|e].
    - destruct ((artwork_maxsize cfg =? 0) || (size <=? artwork_maxsize cfg)).
      + exists []. rewrite grow_nil. simpl. split; [reflexivity|].
        split; [now left|]. intros p [= <-] _. exact Hs.
      + destruct (tempfile_name env (events st) (os_path_splitext_ext env s))
          as [tmp|e].
        * exists [EvTempFile tmp; EvResize 1000 s tmp (artwork_maxsize cfg)].
          simpl. split; [reflexivity|]. split; [right; eauto|].
          intros p _ H. discriminate H.
        * exists []. rewrite grow_nil. simpl. split; [reflexivity|].
          split; [now left|]. intros p H. discriminate H.
    - exists []. rewrite grow_nil. simpl. split; [reflexivity|].
      split; [now left|]. intros p H. discriminate H. }
  rewrite artwork_attempt_cases. unfold decoded_artpath in *.
  destruct (artpath alb) as [|s|b].
  - exists []. rewrite grow_nil. simpl. split; [reflexivity|].
    split; [now left|]. intros p H. discriminate H.
  - now apply Hresize.
  - destruct (utf8_decode (map to_N b)) as [s|].
    + now apply Hresize.
    + exists []. rewrite grow_nil. simpl. split; [reflexivity|].
      split; [now left|]. intros p H. discriminate H.
Qed.

(** X3: composing a message writes at most three events, in this order: a
    temporary file and the one resizer call (width 1000, the configured
    size cap) for the first listed album's decoded path, then one debug
    record when the artwork failed, in which case nothing is attached.
    It never delivers and never logs above debug level. *)
Theorem build_message_effects (env : Env) (cfg : Config)
    (albums : list Album) (st : State) :
  exists pre post,
    snd (build_message env cfg albums st) = grow st (pre ++ post)
    /\ (pre = []
        \/ exists alb rest tmp p,
             listed cfg albums = alb :: rest
             /\ decoded_artpath alb = Some p
             /\ pre = [EvTempFile tmp;
                       EvResize 1000 p tmp (artwork_maxsize cfg)])
    /\ (post = []
        \/ exists e,
             post = [log_artwork_failed e]
             /\ msg_artwork (fst (build_message env cfg albums st)) = None).
Proof.
  rewrite build_message_run. simpl. unfold first_artwork.
  destruct (listed cfg albums) as [|alb rest] eqn:Hl.
  - exists [], []. simpl. rewrite grow_nil. repeat split; now left.
  - rewrite artwork_step_cases.
    destruct (artwork cfg && show_first_art cfg && path_truthy (artpath alb)).
    + destruct (artwork_attempt_effects env cfg alb st)
        as (pre & Hpre & Hshape & _).
      destruct (artwork_attempt env cfg alb st) as [[p|e] st1];
        simpl in Hpre; subst st1.
      * exists pre, []. rewrite app_nil_r. simpl.
        split; [reflexivity|]. split; [|now left].
        destruct Hshape as [->|(tmp & q & Hq & ->)]; [now left|].
        right. exists alb, rest, tmp, q. now repeat split.
      * exists pre, [log_artwork_failed e]. simpl.
        split; [unfold add_event, grow; simpl; now rewrite app_assoc|].
        split; [|right; eauto].
        destruct Hshape as [->|(tmp & q & Hq & ->)]; [now left|].
        right. exists alb, rest, tmp, q. now repeat split.
    + exists [], []. simpl. rewrite grow_nil. repeat split; now left.
Qed.

(** X4: with artwork switched off by either key, or a first listed album
    without an [artpath], composing a message reads no file and writes no
    event: the state is untouched and nothing is attached. *)
Theorem build_message_without_artwork (env : Env) (cfg : Config)
    (albums : list Album) (st : State) :
  artwork cfg = false
  \/ show_first_art cfg = false
  \/ (forall alb rest,
        listed cfg albums = alb :: rest -> path_truthy (artpath alb) = false)
  ->
  build_message env cfg albums st
  = (Ok (build_title albums, final_body cfg albums, None), st).
Proof.
  intros Hoff. rewrite build_message_run. unfold first_artwork.
  destruct (listed cfg albums) as [|alb rest] eqn:Hl; [reflexivity|].
  rewrite artwork_step_cases.
  assert (Hcond : artwork cfg && show_first_art cfg
                  && path_truthy (artpath alb) = false).
  { destruct Hoff as [->|[->|H]].
    - reflexivity.
    - now rewrite andb_false_r.
    - rewrite (H alb rest eq_refl). now rewrite andb_false_r. }
  now rewrite Hcond.
Qed.

Lemma build_message_without_artwork_witness :
  build_message Sample.env_missing Scenario.cfg_no_artwork Sample.three
    Sample.fresh
  = (Ok (lit "Beets: 3 albums imported",
         lit "A - X (2020)" ++ nl ++ lit "B - Y (2021)" ++ nl
           ++ lit "C - Z (2022)",
         None),
     Sample.fresh).
Proof.
  apply (@build_message_without_artwork Sample.env_missing
           Scenario.cfg_no_artwork Sample.three Sample.fresh).
  left. reflexivity.
Defined.

(** X5: only the first album's artwork is ever looked at: for truncate
    T >= 0, two batches with the same first album get the same attachment
    and leave the same state, whatever the later albums are. *)
Theorem build_message_artwork_first_only (env : Env) (cfg : Config)
    (alb : Album) (rest rest' : list Album) (st : State) :
  0 <= truncate cfg ->
  msg_artwork (fst (build_message env cfg (alb :: rest) st))
  = msg_artwork (fst (build_message env cfg (alb :: rest') st))
  /\ snd (build_message env cfg (alb :: rest) st)
     = snd (build_message env cfg (alb :: rest') st).
Proof.
  intros Ht. rewrite !build_message_run. simpl.
  destruct (Z.eq_dec (truncate cfg) 0) as [H0|H0].
  - unfold first_artwork. rewrite !listed_zero by assumption. now split.
  - rewrite !first_artwork_head by lia. now split.
Qed.

Lemma build_message_artwork_first_only_witness :
  msg_artwork (fst (build_message Sample.env Sample.cfg Sample.three
                      Sample.fresh))
  = msg_artwork (fst (build_message Sample.env Sample.cfg Sample.one
                        Sample.fresh)).
Proof.
  assert (Ht : 0 <= truncate Sample.cfg) by (simpl; lia).
  exact (proj1 (@build_message_artwork_first_only Sample.env Sample.cfg
                  (Sample.mk "A" "X" 2020 (PStr Sample.cover))
                  [Sample.mk "B" "Y" 2021 PNone; Sample.mk "C" "Z" 2022 PNone]
                  [] Sample.fresh Ht)).
Defined.

(** X6: with [artwork_maxsize] 0, the default, the artwork is never
    copied or resized: composing a message creates no temporary file and
    calls no resizer, writes at most the one debug record, and an
    attachment is the first listed album's own path, decoded when it is
    [bytes]. *)
Theorem build_message_no_cap (env : Env) (cfg : Config)
    (albums : list Album) (st : State) :
  artwork_maxsize cfg = 0 ->
  exists post,
    snd (build_message env cfg albums st) = grow st post
    /\ (post = [] \/ exists e, post = [log_artwork_failed e])
    /\ forall p,
         msg_artwork (fst (build_message env cfg albums st)) = Some p ->
         exists alb rest,
           listed cfg albums = alb :: rest /\ decoded_artpath alb = Some p.
Proof.
  intros Hcap. rewrite build_message_run. simpl. unfold first_artwork.
  destruct (listed cfg albums) as [|alb rest] eqn:Hl.
  - exists []. simpl. rewrite grow_nil.
    split; [reflexivity|]. split; [now left | discriminate].
  - rewrite artwork_step_cases.
    destruct (artwork cfg && show_first_art cfg && path_truthy (artpath alb)).
    + assert (Hrun : exists r,
                artwork_attempt env cfg alb st = (r, st)
                /\ forall p, r = Ok p -> decoded_artpath alb = Some p).
      { rewrite artwork_attempt_cases, Hcap. unfold decoded_artpath.
        destruct (artpath alb) as [|s|b].
        - eexists. split; [reflexivity | discriminate].
        - rewrite resize_artwork_no_cap. eexists. split; [reflexivity|].
          destruct (os_path_getsize env s); [now intros p [= <-] | discriminate].
        - destruct (utf8_decode (map to_N b)) as [s|].
          + rewrite resize_artwork_no_cap. eexists. split; [reflexivity|].
            destruct (os_path_getsize env s);
              [now intros p [= <-] | discriminate].
          + eexists. split; [reflexivity | discriminate]. }
      destruct Hrun as (r & -> & Hr). destruct r as [q|e]; simpl.
      * exists []. rewrite grow_nil. split; [reflexivity|].
        split; [now left|]. intros p [= <-]. exists alb, rest.
        split; [reflexivity | now apply Hr].
      * exists [log_artwork_failed e]. split; [reflexivity|].
        split; [right; eauto | discriminate].
    + exists []. simpl. rewrite grow_nil.
      split; [reflexivity|]. split; [now left | discriminate].
Qed.

Lemma build_message_no_cap_witness :
  exists post,
    snd (build_message Sample.env default_config Sample.three Sample.fresh)
    = grow Sample.fresh post
    /\ (post = [] \/ exists e, post = [log_artwork_failed e]).
Proof.
  destruct (@build_message_no_cap Sample.env default_config Sample.three
              Sample.fresh eq_refl) as (post & Hpost & Hshape & _).
  exists post. now split.
Defined.

(** ** The body at the edges of the configuration *)

Lemma msg_body_final (env : Env) (cfg : Config) (albums : list Album)
    (st : State) :
  msg_body (fst (build_message env cfg albums st))
  = Some (final_body cfg albums).
Proof. now rewrite build_message_run. Qed.

(** X7: a negative truncate T is taken as a slice bound from the end: the
    body lists the first N + T albums (none when N + T <= 0), and the
    closing line, always present, counts N - T albums, more than the
    batch holds. *)
Theorem build_message_negative_truncate (env : Env) (cfg : Config)
    (albums : list Album) (st : State) :
  truncate cfg < 0 ->
  let shown := firstn (Z.to_nat (len albums + truncate cfg)) albums in
  listed cfg albums = shown
  /\ msg_body (fst (build_message env cfg albums st))
     = Some (truncate_body (body_maxlength cfg)
               (join nl (map format_line shown)
                ++ more_line (len albums - truncate cfg)))
  /\ len albums < len albums - truncate cfg.
Proof.
  intros Ht shown. pose proof (len_nonneg albums) as Hlen.
  assert (Hmin : Z.min (len albums) (truncate cfg) = truncate cfg) by lia.
  assert (Hl : listed cfg albums = shown).
  { unfold listed, slice_to. rewrite Hmin.
    destruct (Z.ltb_spec (truncate cfg) 0); [reflexivity | lia]. }
  split; [exact Hl|]. split; [|lia].
  rewrite msg_body_final. unfold final_body, assembled_body.
  rewrite Hl, Hmin. unfold add_truncation_message.
  destruct (Z.gtb_spec (len albums) (truncate cfg)); [reflexivity | lia].
Qed.

Lemma build_message_negative_truncate_witness :
  msg_body (fst (build_message Sample.env
                   (Sample.with_truncate (-1) Sample.cfg) Sample.three
                   Sample.fresh))
  = Some (lit "A - X (2020)" ++ nl ++ lit "B - Y (2021)" ++ nl
          ++ lit "...and 4 more").
Proof.
  assert (Ht : truncate (Sample.with_truncate (-1) Sample.cfg) < 0)
    by (simpl; lia).
  destruct (@build_message_negative_truncate Sample.env
              (Sample.with_truncate (-1) Sample.cfg) Sample.three
              Sample.fresh Ht) as (_ & Hbody & _).
  rewrite Hbody. reflexivity.
Defined.

(** X8: for a cap of at least three characters, a body within the cap is
    sent as assembled, and a longer one is cut to exactly
    [body_maxlength] characters: it keeps the first [body_maxlength - 3]
    characters of the assembled body and ends with "...". *)
Theorem build_message_body_exact (env : Env) (cfg : Config)
    (albums : list Album) (st : State) :
  3 <= body_maxlength cfg ->
  exists body,
    msg_body (fst (build_message env cfg albums st)) = Some body
    /\ (len (assembled_body cfg albums) <= body_maxlength cfg ->
        body = assembled_body cfg albums)
    /\ (body_maxlength cfg < len (assembled_body cfg albums) ->
        len body = body_maxlength cfg
        /\ ends_with (lit "...") body
        /\ firstn (Z.to_nat (body_maxlength cfg - 3)) body
           = firstn (Z.to_nat (body_maxlength cfg - 3))
               (assembled_body cfg albums)).
Proof.
  intros Hm. exists (final_body cfg albums).
  split; [apply msg_body_final|].
  unfold final_body, truncate_body.
  set (body := assembled_body cfg albums).
  set (m := body_maxlength cfg) in *.
  destruct (Z.gtb_spec (len body) m) as [Hlong|Hshort].
  - split; [lia|]. intros _. rewrite slice_to_nonneg by lia.
    assert (Hcut : length (firstn (Z.to_nat (m - 3)) body) = Z.to_nat (m - 3)).
    { rewrite length_firstn. unfold len in Hlong. lia. }
    split; [|split].
    + rewrite len_app. unfold len at 1. rewrite Hcut.
      change (len (lit "...")) with 3. lia.
    + now exists (firstn (Z.to_nat (m - 3)) body).
    + rewrite firstn_app, Hcut, Nat.sub_diag. simpl firstn at 2.
      rewrite app_nil_r, firstn_firstn. now rewrite Nat.min_id.
  - split; [reflexivity | lia].
Qed.

Lemma build_message_body_exact_witness :
  exists body,
    msg_body (fst (build_message Sample.env
                     (Sample.with_body_maxlength 20 Sample.cfg) Sample.three
                     Sample.fresh)) = Some body
    /\ len body = 20
    /\ ends_with (lit "...") body.
Proof.
  assert (Hm : 3 <= body_maxlength (Sample.with_body_maxlength 20 Sample.cfg))
    by (simpl; lia).
  assert (Hlong : body_maxlength (Sample.with_body_maxlength 20 Sample.cfg)
                  < len (assembled_body
                           (Sample.with_body_maxlength 20 Sample.cfg)
                           Sample.three))
    by (vm_compute; reflexivity).
  destruct (@build_message_body_exact Sample.env
              (Sample.with_body_maxlength 20 Sample.cfg) Sample.three
              Sample.fresh Hm) as (body & Hbody & _ & Hcut).
  destruct (Hcut Hlong) as (Hlen & Hend & _).
  exists body. repeat split; assumption.
Defined.

(** X9: for a cap below three characters, a body longer than the cap is
    never brought within it: [body[:max_length - 3]] drops
    [3 - max_length] characters from the end and "..." is appended, so
    the result has [max(0, len + max_length - 3) + 3] characters. *)
Theorem build_message_body_small_cap (env : Env) (cfg : Config)
    (albums : list Album) (st : State) :
  body_maxlength cfg < 3 ->
  body_maxlength cfg < len (assembled_body cfg albums) ->
  exists body,
    msg_body (fst (build_message env cfg albums st)) = Some body
    /\ len body
       = Z.max 0 (len (assembled_body cfg albums) + body_maxlength cfg - 3)
         + 3
    /\ body_maxlength cfg < len body.
Proof.
  intros Hm Hlong. exists (final_body cfg albums).
  split; [apply msg_body_final|].
  unfold final_body, truncate_body.
  set (body := assembled_body cfg albums) in *.
  set (m := body_maxlength cfg) in *.
  destruct (Z.gtb_spec (len body) m) as [_|Hshort]; [|lia].
  assert (Hlen : len (slice_to body (m - 3) ++ lit "...")
                 = Z.max 0 (len body + m - 3) + 3).
  { rewrite len_app. change (len (lit "...")) with 3.
    unfold slice_to. destruct (Z.ltb_spec (m - 3) 0); [|lia].
    unfold len. rewrite length_firstn. unfold len in *. lia. }
  rewrite Hlen. split; [reflexivity | lia].
Qed.

Lemma build_message_body_small_cap_witness :
  exists body,
    msg_body (fst (build_message Sample.env
                     (Sample.with_body_maxlength 1 Sample.cfg) Sample.one
                     Sample.fresh)) = Some body
    /\ len body = 13.
Proof.
  assert (Hm : body_maxlength (Sample.with_body_maxlength 1 Sample.cfg) < 3)
    by (simpl; lia).
  assert (Hlong : body_maxlength (Sample.with_body_maxlength 1 Sample.cfg)
                  < len (assembled_body
                           (Sample.with_body_maxlength 1 Sample.cfg)
                           Sample.one))
    by (vm_compute; reflexivity).
  destruct (@build_message_body_small_cap Sample.env
              (Sample.with_body_maxlength 1 Sample.cfg) Sample.one
              Sample.fresh Hm Hlong) as (body & Hbody & Hlen & _).
  exists body. split; [exact Hbody|]. rewrite Hlen. reflexivity.
Defined.

(** ** The dispatcher, outcome by outcome *)



(** The delivery block always returns. *)
Lemma deliver_ok (env : Env) (apobj : list str) (title body : str)
    (a : option str) (st : State) :
  try_catch
    (success <-
       (if opt_truthy a
        then apobj_notify env apobj title body a
        else apobj_notify env apobj title body None) ;;
     if (success : bool) then
       log LInfo "notification sent to {} service(s)"
           [ArgInt (apprise_len env apobj)]
     else log LError "notification failed" [])
    (fun e => log LError "notification error: {}" [ArgExn e]) st
  = (Ok tt,
     grow st
       [EvNotify title body (if opt_truthy a then a else None);
        match apprise_notify env apobj title body
                (if opt_truthy a then a else None) with
        | Ok true =>
            EvLog LInfo "notification sent to {} service(s)"
              [ArgInt (apprise_len env apobj)]
        | Ok false => EvLog LError "notification failed" []
        | Raise e => EvLog LError "notification error: {}" [ArgExn e]
        end]).
Proof.
  unfold try_catch, bind, apobj_notify, emit, log, emit, lift, grow.
  destruct (opt_truthy a); simpl.
  - destruct (apprise_notify env apobj title body a) as [[|]|e]; simpl;
      now rewrite <- app_assoc.
  - destruct (apprise_notify env apobj title body None) as [[|]|e]; simpl;
      now rewrite <- app_assoc.
Qed.

(** [send_notification], step by step, when URLs are configured. *)
Lemma send_notification_steps (env : Env) (cfg : Config)
    (albums : list Album) (st : State) :
  apprise_urls cfg <> [] ->
  let urls := apprise_urls cfg in
  let title := build_title albums in
  let body := final_body cfg albums in
  let a := fst (first_artwork env cfg albums st) in
  let st2 := snd (add_urls env [] urls (snd (first_artwork env cfg albums st))) in
  send_notification env cfg albums st
  = if apprise_len env urls =? 0
    then (Ok tt,
          grow st2 [EvLog LError "no valid apprise URLs configured" []])
    else
      (Ok tt,
       grow st2
         [EvNotify title body (if opt_truthy a then a else None);
          match apprise_notify env urls title body
                  (if opt_truthy a then a else None) with
          | Ok true =>
              EvLog LInfo "notification sent to {} service(s)"
                [ArgInt (apprise_len env urls)]
          | Ok false => EvLog LError "notification failed" []
          | Raise e => EvLog LError "notification error: {}" [ArgExn e]
          end]).
Proof.
  intros Hne. cbv zeta. unfold send_notification.
  destruct (apprise_urls cfg) as [|url urls]; [congruence|].
  change (negb (nonempty (url :: urls))) with false. cbv iota.
  unfold bind at 1. rewrite build_message_run.
  unfold bind at 1.
  destruct (add_urls_run env (url :: urls) []
              (snd (first_artwork env cfg albums st)))
    as (new2 & Hadd & _).
  rewrite Hadd. cbv beta iota. rewrite !app_nil_l. simpl snd.
  destruct (apprise_len env (url :: urls) =? 0).
  - reflexivity.
  - apply deliver_ok.
Qed.

(** X11: with URLs configured and a non-empty Apprise object, the
    dispatcher returns normally after exactly these two last events: the
    [notify] call, with the composed title and body and the artwork as
    attachment only when it is a non-empty path, and one log record for
    its outcome: info with the service count when [notify] returned true,
    error "notification failed" when it returned false, and error
    "notification error" with the exception when it raised. *)
Theorem send_notification_outcome (env : Env) (cfg : Config)
    (albums : list Album) (st : State) :
  apprise_urls cfg <> [] ->
  apprise_len env (apprise_urls cfg) <> 0 ->
  let urls := apprise_urls cfg in
  let title := build_title albums in
  let body := final_body cfg albums in
  let a := msg_artwork (fst (build_message env cfg albums st)) in
  let attach := if opt_truthy a then a else None in
  let st2 :=
    snd (add_urls env [] urls (snd (build_message env cfg albums st))) in
  send_notification env cfg albums st
  = (Ok tt,
     grow st2
       [EvNotify title body attach;
        match apprise_notify env urls title body attach with
        | Ok true =>
            EvLog LInfo "notification sent to {} service(s)"
              [ArgInt (apprise_len env urls)]
        | Ok false => EvLog LError "notification failed" []
        | Raise e => EvLog LError "notification error: {}" [ArgExn e]
        end]).
Proof.
  intros Hne Hlen. cbv zeta.
  rewrite send_notification_steps by assumption.
  rewrite build_message_run. simpl msg_artwork. simpl snd.
  now rewrite (proj2 (Z.eqb_neq _ _) Hlen).
Qed.

Lemma send_notification_outcome_witness :
  send_notification Scenario.env_failing Sample.cfg Sample.three Sample.fresh
  = (Ok tt,
     grow Sample.fresh
       [EvNotify (lit "Beets: 3 albums imported")
          (lit "A - X (2020)" ++ nl ++ lit "B - Y (2021)" ++ nl
             ++ lit "C - Z (2022)")
          (Some Sample.cover);
        EvLog LError "notification failed" []]).
Proof.
  assert (Hne : apprise_urls Sample.cfg <> []) by discriminate.
  assert (Hlen : apprise_len Scenario.env_failing (apprise_urls Sample.cfg)
                 <> 0) by discriminate.
  exact (@send_notification_outcome Scenario.env_failing Sample.cfg
           Sample.three Sample.fresh Hne Hlen).
Defined.

Lemma send_notification_ok (env : Env) (cfg : Config) (albums : list Album)
    (st : State) :
  fst (send_notification env cfg albums st) = Ok tt.
Proof.
  destruct (apprise_urls cfg) as [|url urls] eqn:Hurls.
  - unfold send_notification. now rewrite Hurls.
  - rewrite send_notification_steps by congruence.
    now destruct (apprise_len env (apprise_urls cfg) =? 0).
Qed.

(** X12: the exit handler never raises into the host: whatever reading
    the file size, creating the temporary file, the resizer and the sink's
    [notify] do, raising included, it returns normally.  ([add] and [len]
    of the Apprise object answer without raising.) *)
Theorem notify_on_cli_exit_never_raises (env : Env) (cfg : Config)
    (st : State) :
  fst (notify_on_cli_exit env cfg st) = Ok tt.
Proof.
  destruct (imported_albums st) as [|alb rest] eqn:E.
  - unfold notify_on_cli_exit. now rewrite E.
  - rewrite notify_on_cli_exit_nonempty by congruence.
    apply send_notification_ok.
Qed.

(** X13: without configured URLs, as in the default configuration, the
    exit handler of a run with imports writes its two debug records and
    nothing else: no artwork is read or resized, no sink is touched. *)
Theorem notify_on_cli_exit_no_urls (env : Env) (cfg : Config) (st : State) :
  apprise_urls cfg = [] ->
  imported_albums st <> [] ->
  notify_on_cli_exit env cfg st
  = (Ok tt,
     grow st [log_sending (len (imported_albums st)); log_no_urls]).
Proof.
  intros Hurls Hne. rewrite notify_on_cli_exit_nonempty by assumption.
  unfold send_notification. rewrite Hurls. simpl.
  unfold log, emit, add_event, grow. simpl. now rewrite <- app_assoc.
Qed.

Lemma notify_on_cli_exit_no_urls_witness :
  notify_on_cli_exit Sample.env default_config (Sample.after Sample.three)
  = (Ok tt,
     grow (Sample.after Sample.three) [log_sending 3; log_no_urls]).
Proof.
  assert (Hne : imported_albums (Sample.after Sample.three) <> [])
    by discriminate.
  exact (@notify_on_cli_exit_no_urls Sample.env default_config
           (Sample.after Sample.three) eq_refl Hne).
Defined.

(** ** A whole run *)



(** ** [bytes] paths *)

(** X15: an [artpath] given as ASCII [bytes], the usual case, reaches
    [resize_artwork] as the text with the same characters. *)
Theorem artwork_attempt_ascii_bytes (env : Env) (cfg : Config) (alb : Album)
    (b : list byte) (st : State) :
  artpath alb = PBytes b ->
  Forall (fun x => (Byte.to_N x < 0x80)%N) b ->
  artwork_attempt env cfg alb st
  = resize_artwork env (map Byte.to_N b) (artwork_maxsize cfg) st.
Proof.
  intros Hb Hascii. rewrite artwork_attempt_cases, Hb.
  rewrite utf8_decode_ascii; [reflexivity|].
  now apply Forall_map.
Qed.

Lemma artwork_attempt_ascii_bytes_witness :
  artwork_attempt Sample.env Sample.cfg
    (Sample.mk "A" "X" 2020 (PBytes [x2f; x61; x2e; x6a; x70; x67]))
    Sample.fresh
  = (Ok (lit "/a.jpg"), Sample.fresh).
Proof.
  assert (Hascii : Forall (fun x => (Byte.to_N x < 0x80)%N)
                     [x2f; x61; x2e; x6a; x70; x67]).
  { repeat constructor. }
  rewrite (@artwork_attempt_ascii_bytes Sample.env Sample.cfg
             (Sample.mk "A" "X" 2020 (PBytes [x2f; x61; x2e; x6a; x70; x67]))
             [x2f; x61; x2e; x6a; x70; x67] Sample.fresh eq_refl Hascii).
  reflexivity.
Defined.
